(** * best-surf-api: the StormGlass forecast client

    A shallow embedding of [src/clients/stormGlass.ts] together with the
    parts of the JavaScript runtime it relies on: IEEE-754 double
    precision numbers with their default conversion to strings (used by
    every template literal of the client), truthiness, [JSON.stringify],
    exceptions with [try]/[catch], and the injected collaborators (HTTP
    transport, cache store, clock, logger), which are threaded through an
    explicit world state and leave a trace of the calls made. *)

From Stdlib Require Import ZArith Lia List String Ascii Bool.
From stdpp Require Import gmap strings list.

Open Scope Z_scope.

(* ===================================================================== *)
(** * JavaScript numbers *)
(* ===================================================================== *)

Module JsNumber.

(** The Number type: a binary64 value.  A finite non-zero number is
    [(-1)^neg * m * 2^e] with an integral significand. *)
Inductive number : Type :=
  | NaN
  | Infinity (neg : bool)
  | Zero (neg : bool)
  | Finite (neg : bool) (m : Z) (e : Z).

(** The pairs [(m, e)] that denote a double: normal numbers carry a
    53-bit significand, subnormal ones sit at the least exponent. *)
Definition canonical (m e : Z) : bool :=
  (0 <? m) && (m <? 2 ^ 53) && (-1074 <=? e) && (e <=? 971)
  && ((2 ^ 52 <=? m) || (e =? -1074)).

Definition wf (x : number) : bool :=
  match x with
  | Finite _ m e => canonical m e
  | _ => true
  end.

Definition is_finite (x : number) : bool :=
  match x with
  | Zero _ | Finite _ _ _ => true
  | _ => false
  end.

(** [ToBoolean] on numbers: [+0], [-0] and [NaN] are falsy. *)
Definition ToBoolean (x : number) : bool :=
  match x with
  | NaN | Zero _ => false
  | _ => true
  end.

(** Strict equality [===] on numbers. *)
Definition strict_eq (x y : number) : bool :=
  match x, y with
  | Zero _, Zero _ => true
  | Infinity a, Infinity b => Bool.eqb a b
  | Finite a m e, Finite b m' e' => Bool.eqb a b && (m =? m') && (e =? e')
  | _, _ => false
  end.

(** ** Rounding a positive rational [p / q] to the nearest double,
    ties to even. *)

Definition ge_pow2 (p q l : Z) : bool :=
  if 0 <=? l then q * 2 ^ l <=? p else q <=? p * 2 ^ (- l).

(** [flog2 p q] is the integer part of the binary logarithm of [p / q]. *)
Definition flog2 (p q : Z) : Z :=
  let l := Z.log2 p - Z.log2 q in
  if ge_pow2 p q l then l else l - 1.

Definition round_half_even (num den : Z) : Z :=
  let q := num / den in
  let r := num mod den in
  if 2 * r <? den then q
  else if den <? 2 * r then q + 1
  else if Z.even q then q else q + 1.

Definition round_frac (neg : bool) (p q : Z) : number :=
  if p <=? 0 then Zero neg
  else
    let e := Z.max (flog2 p q - 52) (-1074) in
    let m := if 0 <=? e then round_half_even p (q * 2 ^ e)
             else round_half_even (p * 2 ^ (- e)) q in
    if m =? 0 then Zero neg
    else
      let '(m', e') := if m =? 2 ^ 53 then (2 ^ 52, e + 1) else (m, e) in
      if 971 <? e' then Infinity neg else Finite neg m' e'.

(** The double nearest to [s * 10^e10]. *)
Definition dec_round (neg : bool) (s e10 : Z) : number :=
  if 0 <=? e10 then round_frac neg (s * 10 ^ e10) 1
  else round_frac neg s (10 ^ (- e10)).

(** The number a decimal literal [s]e[e10] denotes. *)
Definition of_decimal (s e10 : Z) : number :=
  dec_round (s <? 0) (Z.abs s) e10.

Definition of_Z (z : Z) : number := of_decimal z 0.

(** ** Decimal digits *)

Definition digit_char (d : Z) : ascii := ascii_of_nat (48 + Z.to_nat d).

Fixpoint digits_fuel (fuel : nat) (z : Z) : list ascii :=
  match fuel with
  | O => [digit_char z]
  | S f => if z <? 10 then [digit_char z]
           else digits_fuel f (z / 10) ++ [digit_char (z mod 10)]
  end.

(** The decimal representation of a non-negative integer. *)
Definition digits (z : Z) : list ascii :=
  digits_fuel (Z.to_nat (Z.log2 z)) z.

Definition zlen (l : list ascii) : Z := Z.of_nat (length l).

(** ** Number::toString (radix 10), ECMA-262 6.1.6.1.20 *)

Definition exponent_part (n : Z) : list ascii :=
  let e := n - 1 in
  "e"%char :: (if 0 <=? e then "+"%char else "-"%char) :: digits (Z.abs e).

(** The text for the digit string [D] of [s] ([k] digits) and the
    exponent [n], where the number is [s * 10^(n-k)]. *)
Definition render (D : list ascii) (n : Z) : list ascii :=
  let k := zlen D in
  if (k <=? n) && (n <=? 21) then D ++ replicate (Z.to_nat (n - k)) "0"%char
  else if (0 <? n) && (n <=? 21) then
    take (Z.to_nat n) D ++ "."%char :: drop (Z.to_nat n) D
  else if (-6 <? n) && (n <=? 0) then
    "0"%char :: "."%char :: replicate (Z.to_nat (- n)) "0"%char ++ D
  else
    match D with
    | [] => []
    | [d] => d :: exponent_part n
    | d :: rest => d :: "."%char :: rest ++ exponent_part n
    end.

(** [n] with [10^(n-1) <= xp / xq < 10^n]. *)
Definition decimal_exponent (xp xq : Z) : Z :=
  if xq <=? xp then zlen (digits (xp / xq))
  else 1 - zlen (digits ((xq + xp - 1) / xp - 1)).

(** Does the decimal [s * 10^(n - k)] denote the double [(m, e)]? *)
Definition check (m e s n : Z) : bool :=
  match dec_round false s (n - zlen (digits s)) with
  | Finite _ m' e' => (m' =? m) && (e' =? e)
  | _ => false
  end.

(** The [k]-digit decimals next to [x = xp / xq] from below and from
    above; of those that denote [x], the one closest to it. *)
Definition candidate (m e xp xq n0 k : Z) : option (Z * Z) :=
  let sp := if 0 <=? k - n0 then xp * 10 ^ (k - n0) else xp in
  let sq := if 0 <=? k - n0 then xq else xq * 10 ^ (n0 - k) in
  let lo := sp / sq in
  let r := sp mod sq in
  let hi := if lo + 1 <? 10 ^ k then (lo + 1, n0)
            else (10 ^ (k - 1), n0 + 1) in
  let lo_ok := (10 ^ (k - 1) <=? lo) && check m e lo n0 in
  let hi_ok := check m e (fst hi) (snd hi) in
  match lo_ok, hi_ok with
  | true, true =>
      if 2 * r <? sq then Some (lo, n0)
      else if sq <? 2 * r then Some hi
      else if Z.even lo then Some (lo, n0) else Some hi
  | true, false => Some (lo, n0)
  | false, true => Some hi
  | false, false => None
  end.

(** The least number of digits [k] for which a decimal denotes [x]. *)
Fixpoint shortest (m e xp xq n0 : Z) (ks : list Z) : option (Z * Z) :=
  match ks with
  | [] => None
  | k :: ks' =>
      match candidate m e xp xq n0 k with
      | Some c => Some c
      | None => shortest m e xp xq n0 ks'
      end
  end.

(** The full decimal expansion of [m * 2^e]. *)
Definition exact_decimal (m e : Z) : Z * Z :=
  if 0 <=? e then let s := m * 2 ^ e in (s, zlen (digits s))
  else let s := m * 5 ^ (- e) in (s, zlen (digits s) + e).

Definition finite_chars (m e : Z) : list ascii :=
  let xp := if 0 <=? e then m * 2 ^ e else m in
  let xq := if 0 <=? e then 1 else 2 ^ (- e) in
  let n0 := decimal_exponent xp xq in
  let '(s, n) :=
    match shortest m e xp xq n0 (map Z.of_nat (seq 1 17)) with
    | Some c => c
    | None => exact_decimal m e
    end in
  render (digits s) n.

Definition sign_chars (neg : bool) : list ascii :=
  if neg then ["-"%char] else [].

Definition to_chars (x : number) : list ascii :=
  match x with
  | NaN => list_ascii_of_string "NaN"
  | Zero _ => list_ascii_of_string "0"
  | Infinity neg => sign_chars neg ++ list_ascii_of_string "Infinity"
  | Finite neg m e => sign_chars neg ++ finite_chars m e
  end.

(** [String(x)], which is what a template literal applies to a number. *)
Definition NumberToString (x : number) : string :=
  string_of_list_ascii (to_chars x).

(** ** Reading a decimal literal back (the StrDecimalLiteral part of
    [StringToNumber]) *)

Definition is_digit (c : ascii) : bool :=
  let n := nat_of_ascii c in (48 <=? n)%nat && (n <=? 57)%nat.

Definition digit_val (c : ascii) : Z := Z.of_nat (nat_of_ascii c) - 48.

Definition digits_value (l : list ascii) : Z :=
  fold_left (fun acc c => 10 * acc + digit_val c) l 0.

Fixpoint span_digits (l : list ascii) : list ascii * list ascii :=
  match l with
  | c :: l' =>
      if is_digit c then let '(d, r) := span_digits l' in (c :: d, r)
      else ([], l)
  | [] => ([], [])
  end.

Definition parse_exponent (l : list ascii) : option Z :=
  match l with
  | [] => Some 0
  | e :: sg :: r =>
      if Ascii.eqb e "e" then
        let '(d, r') := span_digits r in
        match d, r' with
        | _ :: _, [] =>
            if Ascii.eqb sg "+" then Some (digits_value d)
            else if Ascii.eqb sg "-" then Some (- digits_value d)
            else None
        | _, _ => None
        end
      else None
  | _ => None
  end.

Definition parse_decimal (neg : bool) (l : list ascii) : option number :=
  let '(ip, r1) := span_digits l in
  let '(fp, r2) :=
    match r1 with
    | c :: r => if Ascii.eqb c "." then span_digits r else ([], r1)
    | [] => ([], r1)
    end in
  match ip with
  | [] => None
  | _ :: _ =>
      match parse_exponent r2 with
      | Some ex => Some (dec_round neg (digits_value (ip ++ fp)) (ex - zlen fp))
      | None => None
      end
  end.

Definition parse_unsigned (neg : bool) (l : list ascii) : option number :=
  match l with
  | c :: _ =>
      if is_digit c then parse_decimal neg l
      else if String.eqb (string_of_list_ascii l) "Infinity"
           then Some (Infinity neg)
      else None
  | [] => None
  end.

Definition parse_chars (l : list ascii) : option number :=
  match l with
  | c :: r =>
      if Ascii.eqb c "-" then parse_unsigned true r
      else if String.eqb (string_of_list_ascii l) "NaN" then Some NaN
      else parse_unsigned false l
  | [] => None
  end.

Definition parseNumber (s : string) : option number :=
  parse_chars (list_ascii_of_string s).

(** ** Notions used to state facts about the conversion *)

(** A list of decimal digits. *)
Definition digit_list (l : list ascii) : Prop :=
  Forall (fun c => is_digit c = true) l.


(** [p / q] is exactly [m * 2^e]. *)
Definition represents (p q m e : Z) : Prop :=
  if 0 <=? e then p = m * 2 ^ e * q else p * 2 ^ (- e) = m * q.


(** Reading back the decimal text of a number: what comes back is the
    number itself, except that [-0], printed as [0], comes back as [+0]. *)
Definition read_back (x : number) : number :=
  match x with
  | Zero _ => Zero false
  | _ => x
  end.


(** A text without the separator of the cache key. *)
Definition no_underscore (l : list ascii) : Prop :=
  Forall (fun c => c <> "_"%char) l.


(** The number of characters after the decimal point of a text. *)
Fixpoint fraction_digits (s : string) : nat :=
  match s with
  | EmptyString => O
  | String c r => if Ascii.eqb c "." then String.length r else fraction_digits r
  end.

End JsNumber.

Export JsNumber.

Open Scope string_scope.
Open Scope list_scope.

(* ===================================================================== *)
(** * JSON values and [JSON.stringify] *)
(* ===================================================================== *)

Module JSON.

#[warnings="-register-all"]
Inductive value : Type :=
  | JNull
  | JBool (b : bool)
  | JNumber (x : number)
  | JString (s : string)
  | JArray (items : list value)
  | JObject (props : list (string * value)).

Definition dquote : ascii := "034"%char.
Definition backslash : ascii := "092"%char.

Definition hex_digit (n : nat) : ascii :=
  if (n <? 10)%nat then ascii_of_nat (48 + n) else ascii_of_nat (87 + n).

(** One code unit of QuoteJSONString. *)
Definition quote_char (c : ascii) : string :=
  let n := nat_of_ascii c in
  if Ascii.eqb c dquote then String backslash (String dquote EmptyString)
  else if Ascii.eqb c backslash
       then String backslash (String backslash EmptyString)
  else if (n =? 8)%nat then String backslash "b"
  else if (n =? 9)%nat then String backslash "t"
  else if (n =? 10)%nat then String backslash "n"
  else if (n =? 12)%nat then String backslash "f"
  else if (n =? 13)%nat then String backslash "r"
  else if (n <? 32)%nat then
    String backslash
      ("u00" +:+ String (hex_digit (n / 16))
                   (String (hex_digit (n mod 16)) EmptyString))
  else String c EmptyString.

Fixpoint quote_body (s : string) : string :=
  match s with
  | EmptyString => EmptyString
  | String c s' => quote_char c +:+ quote_body s'
  end.

Definition quote (s : string) : string :=
  String dquote (quote_body s +:+ String dquote EmptyString).

Fixpoint stringify (j : value) : string :=
  match j with
  | JNull => "null"
  | JBool true => "true"
  | JBool false => "false"
  | JNumber x => if is_finite x then NumberToString x else "null"
  | JString s => quote s
  | JArray items =>
      "[" +:+
      (fix elements (l : list value) : string :=
         match l with
         | [] => EmptyString
         | x :: r =>
             match r with
             | [] => stringify x
             | _ :: _ => stringify x +:+ "," +:+ elements r
             end
         end) items
      +:+ "]"
  | JObject props =>
      "{" +:+
      (fix members (l : list (string * value)) : string :=
         match l with
         | [] => EmptyString
         | (k, x) :: r =>
             match r with
             | [] => quote k +:+ ":" +:+ stringify x
             | _ :: _ => quote k +:+ ":" +:+ stringify x +:+ "," +:+ members r
             end
         end) props
      +:+ "}"
  end.

End JSON.

(* ===================================================================== *)
(** * Data model of the client *)
(* ===================================================================== *)

(** [StormGlassPointSource]: an object indexed by source name. *)
#[warnings="-notation-for-abbreviation"]
Notation StormGlassPointSource := (gmap string number).

(** An element of [hours] as it arrives: every property may be missing,
    which is why [isValidPoint] takes a [Partial<StormGlassPoint>]. *)
Module StormGlassPoint.
Record t : Type := mk {
  time : option string;
  swellDirection : option StormGlassPointSource;
  swellHeight : option StormGlassPointSource;
  swellPeriod : option StormGlassPointSource;
  waveDirection : option StormGlassPointSource;
  waveHeight : option StormGlassPointSource;
  windDirection : option StormGlassPointSource;
  windSpeed : option StormGlassPointSource
}.
End StormGlassPoint.

(** The response body; a body without [hours] has [hours = undefined]. *)
Record StormGlassForecastResponse : Type := {
  hours : option (list StormGlassPoint.t)
}.

(** The object literal built by [normalizeResponse].  A property read
    yields a value or [undefined]. *)
Module ForecastPoint.
Record t : Type := mk {
  time : option string;
  swellDirection : option number;
  swellHeight : option number;
  swellPeriod : option number;
  waveDirection : option number;
  waveHeight : option number;
  windDirection : option number;
  windSpeed : option number
}.
End ForecastPoint.

(* ===================================================================== *)
(** * Exceptions *)
(* ===================================================================== *)

(** [err.response] of a transport error. *)
Record ErrorResponse : Type := {
  data : JSON.value;
  status : number
}.

(** An error object raised by a collaborator (transport, cache store). *)
Record ForeignError : Type := {
  foreign_message : string;
  foreign_response : option ErrorResponse
}.

(** The values that can be thrown while the client runs.  The last three
    are the classes the module declares; each holds the message its
    constructor passed to [InternalError]. *)
Inductive JsError : Type :=
  | Foreign (e : ForeignError)
  | TypeError (message : string)
  | StormGlassUnexpectedResponseError (message : string)
  | ClientRequestError (message : string)
  | StormGlassResponseError (message : string).

Definition err_message (err : JsError) : string :=
  match err with
  | Foreign e => foreign_message e
  | TypeError m | StormGlassUnexpectedResponseError m
  | ClientRequestError m | StormGlassResponseError m => m
  end.

Definition err_response (err : JsError) : option ErrorResponse :=
  match err with
  | Foreign e => foreign_response e
  | _ => None
  end.

(** The constructors of the three classes. *)
Definition new_StormGlassUnexpectedResponseError (message : string) : JsError :=
  StormGlassUnexpectedResponseError message.

Definition new_ClientRequestError (message : string) : JsError :=
  let internalMessage :=
    "Unexpected error when trying to communicate to StormGlass" in
  ClientRequestError (internalMessage +:+ ": " +:+ message).

Definition new_StormGlassResponseError (message : string) : JsError :=
  let stormGlassErrorMessage :=
    "Unexpected error returned by the StormGlass Service" in
  StormGlassResponseError (stormGlassErrorMessage +:+ ": " +:+ message).

(** Modelled from the spec: [HTTPUtil.Request.isRequestError] of
    [src/utils/request], which is not among the sources.  The transport
    layer reports a structured upstream HTTP error when the error carries
    a response (body and status). *)
Definition isRequestError (err : JsError) : bool :=
  match err_response err with
  | Some _ => true
  | None => false
  end.

(** What V8 says when a property of [undefined] is read. *)
Definition undefined_read (prop : string) : JsError :=
  TypeError ("Cannot read properties of undefined (reading '" +:+ prop +:+ "')").

Inductive Result (A : Type) : Type :=
  | Ok (a : A)
  | Throw (err : JsError).
Arguments Ok {A} a.
Arguments Throw {A} err.

(* ===================================================================== *)
(** * Collaborators and effects *)
(* ===================================================================== *)

(** What a call into a collaborator does: it returns or it throws. *)
Inductive Outcome (A : Type) : Type :=
  | Returned (a : A)
  | Raised (e : ForeignError).
Arguments Returned {A} a.
Arguments Raised {A} e.

(** The calls the client makes, in order. *)
Inductive Event : Type :=
  | EvCacheGet (key : string)
  | EvCacheSet (key : string) (value : list ForecastPoint.t) (ttl : number)
  | EvRequestGet (url : string) (headers : list (string * string))
  | EvLogInfo (message : string).

(** [cacheUtil]: [get<T>(key): T | undefined] and
    [set<T>(key, value, ttl): boolean], over the state [W] of the world
    outside the client. *)
Module CacheUtil.
Record t (W : Type) : Type := mk {
  get : string -> W -> Outcome (option (list ForecastPoint.t)) * W;
  set : string -> list ForecastPoint.t -> number -> W -> Outcome bool * W
}.
Arguments mk {W} _ _.
Arguments get {W} _ _ _.
Arguments set {W} _ _ _ _ _.
End CacheUtil.

(** [request.get<T>(url, config)]: the promise resolves with a response
    whose [data] is the body, or rejects. *)
Module Response.
Record t : Type := mk { data : StormGlassForecastResponse }.
End Response.

Module Request.
Record t (W : Type) : Type := mk {
  get : string -> list (string * string) -> W -> Outcome Response.t * W
}.
Arguments mk {W} _.
Arguments get {W} _ _ _ _.
End Request.

(** [config.get('App.resources.StormGlass')]. *)
Record IConfig : Type := {
  apiUrl : string;
  apiToken : string;
  cacheTtl : number
}.

(** The module-level bindings: the resource configuration and
    [TimeUtil.getUnixTimeForAFutureDay], which reads the clock. *)
Record Imports (W : Type) : Type := {
  stormGlassResourceConfig : IConfig;
  getUnixTimeForAFutureDay : Z -> W -> number
}.
Arguments stormGlassResourceConfig {W} _.
Arguments getUnixTimeForAFutureDay {W} _ _ _.

(** An instance of the class: its two injected collaborators. *)
Module StormGlass.
Record t (W : Type) : Type := mk {
  request : Request.t W;
  cacheUtil : CacheUtil.t W
}.
Arguments mk {W} _ _.
Arguments request {W} _.
Arguments cacheUtil {W} _.
End StormGlass.

(** A computation: from a world to a result, the world after, and the
    calls made on the way. *)
Definition Eff (W A : Type) : Type := W -> Result A * W * list Event.

Definition ret {W A} (a : A) : Eff W A := fun w => (Ok a, w, []).

Definition throw {W A} (err : JsError) : Eff W A := fun w => (Throw err, w, []).

Definition bind {W A B} (m : Eff W A) (f : A -> Eff W B) : Eff W B :=
  fun w =>
    match m w with
    | (Ok a, w1, t1) =>
        let '(r, w2, t2) := f a w1 in (r, w2, (t1 ++ t2)%list)
    | (Throw err, w1, t1) => (Throw err, w1, t1)
    end.

Definition try_catch {W A} (m : Eff W A) (handler : JsError -> Eff W A)
  : Eff W A :=
  fun w =>
    match m w with
    | (Ok a, w1, t1) => (Ok a, w1, t1)
    | (Throw err, w1, t1) =>
        let '(r, w2, t2) := handler err w1 in (r, w2, (t1 ++ t2)%list)
    end.

Definition lift {W A} (r : Result A) : Eff W A := fun w => (r, w, []).

Definition call {W A} (ev : Event) (f : W -> Outcome A * W) : Eff W A :=
  fun w =>
    match f w with
    | (Returned a, w1) => (Ok a, w1, [ev])
    | (Raised e, w1) => (Throw (Foreign e), w1, [ev])
    end.

Definition logger_info {W} (message : string) : Eff W unit :=
  fun w => (Ok tt, w, [EvLogInfo message]).

Declare Scope eff_scope.
Delimit Scope eff_scope with eff.
Notation "'let!' x ':=' m 'in' k" := (bind m (fun x => k))
  (at level 10, x name, m at level 100, k at level 200) : eff_scope.
Notation "'run!' m 'in' k" := (bind m (fun _ => k))
  (at level 10, m at level 100, k at level 200) : eff_scope.

Definition result_bind {A B} (r : Result A) (f : A -> Result B) : Result B :=
  match r with
  | Ok a => f a
  | Throw err => Throw err
  end.

Fixpoint result_map {A B} (f : A -> Result B) (l : list A) : Result (list B) :=
  match l with
  | [] => Ok []
  | x :: l' =>
      result_bind (f x) (fun y =>
      result_bind (result_map f l') (fun ys => Ok (y :: ys)))
  end.

(* ===================================================================== *)
(** * The client ([class StormGlass]) *)
(* ===================================================================== *)

Definition stormGlassAPIParams : string :=
  "swellDirection,swellHeight,swellPeriod,waveDirection,waveHeight,windDirection,windSpeed".

Definition stormGlassAPISource : string := "noaa".

(** Truthiness of [point.time], a string or [undefined]. *)
Definition truthy_string (v : option string) : bool :=
  match v with
  | Some s => negb (String.eqb s EmptyString)
  | None => false
  end.

(** Truthiness of a number or [undefined]. *)
Definition truthy_number (v : option number) : bool :=
  match v with
  | Some x => ToBoolean x
  | None => false
  end.

(** [obj?.[key]]: [undefined] when the object is, else the property. *)
Definition optional_get (obj : option StormGlassPointSource) (key : string)
  : option number :=
  match obj with
  | Some o => o !! key
  | None => None
  end.

Definition isValidPoint (point : StormGlassPoint.t) : bool :=
  truthy_string (StormGlassPoint.time point)
  && truthy_number (optional_get (StormGlassPoint.swellDirection point) stormGlassAPISource)
  && truthy_number (optional_get (StormGlassPoint.swellHeight point) stormGlassAPISource)
  && truthy_number (optional_get (StormGlassPoint.swellPeriod point) stormGlassAPISource)
  && truthy_number (optional_get (StormGlassPoint.waveDirection point) stormGlassAPISource)
  && truthy_number (optional_get (StormGlassPoint.waveHeight point) stormGlassAPISource)
  && truthy_number (optional_get (StormGlassPoint.windDirection point) stormGlassAPISource)
  && truthy_number (optional_get (StormGlassPoint.windSpeed point) stormGlassAPISource).

(** [obj[key]]: reading through [undefined] throws. *)
Definition member_get (obj : option StormGlassPointSource) (key : string)
  : Result (option number) :=
  match obj with
  | Some o => Ok (o !! key)
  | None => Throw (undefined_read key)
  end.

(** The arrow function given to [map]. *)
Definition toForecastPoint (point : StormGlassPoint.t) : Result ForecastPoint.t :=
  result_bind (member_get (StormGlassPoint.swellDirection point) stormGlassAPISource) (fun sd =>
  result_bind (member_get (StormGlassPoint.swellHeight point) stormGlassAPISource) (fun sh =>
  result_bind (member_get (StormGlassPoint.swellPeriod point) stormGlassAPISource) (fun sp =>
  result_bind (member_get (StormGlassPoint.waveDirection point) stormGlassAPISource) (fun wd =>
  result_bind (member_get (StormGlassPoint.waveHeight point) stormGlassAPISource) (fun wh =>
  result_bind (member_get (StormGlassPoint.windDirection point) stormGlassAPISource) (fun wi =>
  result_bind (member_get (StormGlassPoint.windSpeed point) stormGlassAPISource) (fun ws =>
  Ok {| ForecastPoint.time := StormGlassPoint.time point;
        ForecastPoint.swellDirection := sd;
        ForecastPoint.swellHeight := sh;
        ForecastPoint.swellPeriod := sp;
        ForecastPoint.waveDirection := wd;
        ForecastPoint.waveHeight := wh;
        ForecastPoint.windDirection := wi;
        ForecastPoint.windSpeed := ws |}))))))).

(** The object literal when none of the reads throws. *)
Definition readings (point : StormGlassPoint.t) : ForecastPoint.t :=
  {| ForecastPoint.time := StormGlassPoint.time point;
     ForecastPoint.swellDirection := optional_get (StormGlassPoint.swellDirection point) stormGlassAPISource;
     ForecastPoint.swellHeight := optional_get (StormGlassPoint.swellHeight point) stormGlassAPISource;
     ForecastPoint.swellPeriod := optional_get (StormGlassPoint.swellPeriod point) stormGlassAPISource;
     ForecastPoint.waveDirection := optional_get (StormGlassPoint.waveDirection point) stormGlassAPISource;
     ForecastPoint.waveHeight := optional_get (StormGlassPoint.waveHeight point) stormGlassAPISource;
     ForecastPoint.windDirection := optional_get (StormGlassPoint.windDirection point) stormGlassAPISource;
     ForecastPoint.windSpeed := optional_get (StormGlassPoint.windSpeed point) stormGlassAPISource |}.

Definition normalizeResponse (points : StormGlassForecastResponse)
  : Result (list ForecastPoint.t) :=
  match hours points with
  | None => Throw (undefined_read "filter")
  | Some hs => result_map toForecastPoint (List.filter isValidPoint hs)
  end.

Definition getCacheKey (lat lng : number) : string :=
  "forecast_points_" +:+ NumberToString lat +:+ "_" +:+ NumberToString lng.

Section Client.

Context {W : Type}.
Variable imports : Imports W.
Variable this : StormGlass.t W.

Local Open Scope eff_scope.

(** [!forecastPointsFromCache] holds exactly for [undefined]. *)
Definition getForecastPointsFromCache (key : string)
  : Eff W (option (list ForecastPoint.t)) :=
  let! forecastPointsFromCache :=
    call (EvCacheGet key) (CacheUtil.get (StormGlass.cacheUtil this) key) in
  match forecastPointsFromCache with
  | None => ret None
  | Some cached =>
      run! logger_info
        ("Using cache to return forecast points for key: " +:+ key) in
      ret (Some cached)
  end.

Definition setForecastPointsInCache (key : string)
    (forecastPoints : list ForecastPoint.t) : Eff W bool :=
  run! logger_info
    ("Updating cache to return forecast points for key: " +:+ key) in
  call (EvCacheSet key forecastPoints (cacheTtl (stormGlassResourceConfig imports)))
       (CacheUtil.set (StormGlass.cacheUtil this) key forecastPoints
          (cacheTtl (stormGlassResourceConfig imports))).

Definition requestUrl (lat lng endTimestamp : number) : string :=
  apiUrl (stormGlassResourceConfig imports)
  +:+ "/weather/point?lat=" +:+ NumberToString lat
  +:+ "&lng=" +:+ NumberToString lng
  +:+ "&params=" +:+ stormGlassAPIParams
  +:+ "&source=" +:+ stormGlassAPISource
  +:+ "&end=" +:+ NumberToString endTimestamp.

Definition requestHeaders : list (string * string) :=
  [("Authorization", apiToken (stormGlassResourceConfig imports))].

Definition TimeUtil_getUnixTimeForAFutureDay (days : Z) : Eff W number :=
  fun w => (Ok (getUnixTimeForAFutureDay imports days w), w, []).

Definition getForecastPointsFromApi (lat lng : number)
  : Eff W (list ForecastPoint.t) :=
  let! endTimestamp := TimeUtil_getUnixTimeForAFutureDay 1 in
  try_catch
    (let! response :=
       call (EvRequestGet (requestUrl lat lng endTimestamp) requestHeaders)
            (Request.get (StormGlass.request this)
               (requestUrl lat lng endTimestamp) requestHeaders) in
     lift (normalizeResponse (Response.data response)))
    (fun err =>
       if isRequestError err then
         match err_response err with
         | Some response =>
             throw (new_StormGlassResponseError
                      ("Error: " +:+ JSON.stringify (data response)
                       +:+ " Code: " +:+ NumberToString (status response)))
         | None => throw (undefined_read "data")
         end
       else throw (new_ClientRequestError (err_message err))).

(** [!cachedForecastPoints] holds exactly when the value is [undefined]:
    an array, empty or not, is an object and therefore truthy. *)
Definition fetchPoints (lat lng : number) : Eff W (list ForecastPoint.t) :=
  let! cachedForecastPoints :=
    getForecastPointsFromCache (getCacheKey lat lng) in
  match cachedForecastPoints with
  | None =>
      let! forecastPoints := getForecastPointsFromApi lat lng in
      run! setForecastPointsInCache (getCacheKey lat lng) forecastPoints in
      ret forecastPoints
  | Some cached => ret cached
  end.

End Client.

(* ===================================================================== *)
(** * Observations on traces and test doubles *)
(* ===================================================================== *)

Definition is_upstream_call (ev : Event) : bool :=
  match ev with
  | EvRequestGet _ _ => true
  | _ => false
  end.

Definition is_cache_write (ev : Event) : bool :=
  match ev with
  | EvCacheSet _ _ _ => true
  | _ => false
  end.

Definition upstream_calls (trace : list Event) : list Event :=
  List.filter is_upstream_call trace.

Definition cache_writes (trace : list Event) : list Event :=
  List.filter is_cache_write trace.

(** The two log lines. *)
Definition hit_message (key : string) : string :=
  "Using cache to return forecast points for key: " +:+ key.

Definition update_message (key : string) : string :=
  "Updating cache to return forecast points for key: " +:+ key.

(** The request a fetch makes when the clock is read in world [w], and
    what the transport answers to it. *)
Definition request_event {W} (imports : Imports W) (lat lng : number) (w : W)
  : Event :=
  EvRequestGet
    (requestUrl imports lat lng (getUnixTimeForAFutureDay imports 1 w))
    (requestHeaders imports).

Definition request_outcome {W} (imports : Imports W) (this : StormGlass.t W)
    (lat lng : number) (w : W) : Outcome Response.t * W :=
  Request.get (StormGlass.request this)
    (requestUrl imports lat lng (getUnixTimeForAFutureDay imports 1 w))
    (requestHeaders imports) w.

(** What the [catch] block throws for a caught value, written out. *)
Definition rethrown (err : JsError) : JsError :=
  match err_response err with
  | Some response =>
      StormGlassResponseError
        ("Unexpected error returned by the StormGlass Service: Error: "
         +:+ JSON.stringify (data response)
         +:+ " Code: " +:+ NumberToString (status response))
  | None =>
      ClientRequestError
        ("Unexpected error when trying to communicate to StormGlass: "
         +:+ err_message err)
  end.

(** [instanceof] for the classes of the module. *)
Definition is_ClientRequestError (err : JsError) : bool :=
  match err with
  | ClientRequestError _ => true
  | _ => false
  end.

Definition is_StormGlassResponseError (err : JsError) : bool :=
  match err with
  | StormGlassResponseError _ => true
  | _ => false
  end.

Definition is_StormGlassUnexpectedResponseError (err : JsError) : bool :=
  match err with
  | StormGlassUnexpectedResponseError _ => true
  | _ => false
  end.

(** A record ends up in the output with its time and, per measurement,
    the number stored under the source name. *)
Definition field_at (source : string) (raw : option StormGlassPointSource)
    (out : option number) : Prop :=
  exists (m : gmap string number) (v : number),
    raw = Some m /\ m !! source = Some v /\ out = Some v.

Definition projects (source : string) (r : StormGlassPoint.t)
    (p : ForecastPoint.t) : Prop :=
  ForecastPoint.time p = StormGlassPoint.time r
  /\ field_at source (StormGlassPoint.swellDirection r) (ForecastPoint.swellDirection p)
  /\ field_at source (StormGlassPoint.swellHeight r) (ForecastPoint.swellHeight p)
  /\ field_at source (StormGlassPoint.swellPeriod r) (ForecastPoint.swellPeriod p)
  /\ field_at source (StormGlassPoint.waveDirection r) (ForecastPoint.waveDirection p)
  /\ field_at source (StormGlassPoint.waveHeight r) (ForecastPoint.waveHeight p)
  /\ field_at source (StormGlassPoint.windDirection r) (ForecastPoint.windDirection p)
  /\ field_at source (StormGlassPoint.windSpeed r) (ForecastPoint.windSpeed p).

(** The seven measurement mappings of a record. *)
Definition measurements (r : StormGlassPoint.t)
  : list (option StormGlassPointSource) :=
  [StormGlassPoint.swellDirection r; StormGlassPoint.swellHeight r;
   StormGlassPoint.swellPeriod r; StormGlassPoint.waveDirection r;
   StormGlassPoint.waveHeight r; StormGlassPoint.windDirection r;
   StormGlassPoint.windSpeed r].

(** The mapping is there and holds a truthy number under the source. *)
Definition truthy_at (source : string) (raw : option StormGlassPointSource)
  : Prop :=
  exists (m : gmap string number) (v : number),
    raw = Some m /\ m !! source = Some v /\ ToBoolean v = true.

(** Collaborators that answer every call the same way, as the mocks of
    the test suite do. *)
Module Stub.

Definition cache {W} (onGet : Outcome (option (list ForecastPoint.t)))
    (onSet : Outcome bool) : CacheUtil.t W :=
  CacheUtil.mk (fun _ w => (onGet, w)) (fun _ _ _ w => (onSet, w)).

Definition request {W} (onGet : Outcome Response.t) : Request.t W :=
  Request.mk (fun _ _ w => (onGet, w)).

Definition imports : Imports unit :=
  {| stormGlassResourceConfig :=
       {| apiUrl := "https://api.stormglass.io/v2";
          apiToken := "test-token";
          cacheTtl := of_Z 3600 |};
     getUnixTimeForAFutureDay := fun _ _ => of_Z 1592113802 |}.

Definition source (v : Z) : option StormGlassPointSource :=
  Some {[ stormGlassAPISource := of_Z v ]}.

Definition rawPoint (t : string) (v : Z) : StormGlassPoint.t :=
  StormGlassPoint.mk (Some t) (source v) (source v) (source v) (source v)
    (source v) (source v) (source v).

Definition point (t : string) (v : Z) : ForecastPoint.t :=
  ForecastPoint.mk (Some t) (Some (of_Z v)) (Some (of_Z v)) (Some (of_Z v))
    (Some (of_Z v)) (Some (of_Z v)) (Some (of_Z v)) (Some (of_Z v)).

Definition body (hs : list StormGlassPoint.t) : Response.t :=
  Response.mk {| hours := Some hs |}.

Definition client (onRequest : Outcome Response.t)
    (onGet : Outcome (option (list ForecastPoint.t))) (onSet : Outcome bool)
  : StormGlass.t unit :=
  StormGlass.mk (request onRequest) (cache onGet onSet).

Definition rateLimited : ForeignError :=
  {| foreign_message := "Request failed with status code 429";
     foreign_response :=
       Some {| data := JSON.JObject
                         [("errors", JSON.JArray [JSON.JString "Rate Limit reached"])];
               status := of_Z 429 |} |}.

Definition networkError : ForeignError :=
  {| foreign_message := "Network Error"; foreign_response := None |}.

Definition cacheDown : ForeignError :=
  {| foreign_message := "cache unavailable"; foreign_response := None |}.

End Stub.

(** A point all of whose properties are there and truthy. *)
Definition complete (p : ForecastPoint.t) : bool :=
  truthy_string (ForecastPoint.time p)
  && truthy_number (ForecastPoint.swellDirection p)
  && truthy_number (ForecastPoint.swellHeight p)
  && truthy_number (ForecastPoint.swellPeriod p)
  && truthy_number (ForecastPoint.waveDirection p)
  && truthy_number (ForecastPoint.waveHeight p)
  && truthy_number (ForecastPoint.windDirection p)
  && truthy_number (ForecastPoint.windSpeed p).

(** The configuration and clock of [Stub.imports] over any world. *)
Definition importsFor (W : Type) : Imports W :=
  {| stormGlassResourceConfig := stormGlassResourceConfig Stub.imports;
     getUnixTimeForAFutureDay := fun _ _ => of_Z 1592113802 |}.

(** A cache store that keeps what it is given: the world is the store. *)
Definition memoryCache : CacheUtil.t (gmap string (list ForecastPoint.t)) :=
  CacheUtil.mk
    (fun key store => (Returned (store !! key), store))
    (fun key value _ store => (Returned true, <[key := value]> store)).

Section NumberFacts.

Local Open Scope Z_scope.

(* ===================================================================== *)
(** * Decimal digits *)
(* ===================================================================== *)

Lemma digit_char_spec (d : Z) :
  0 <= d < 10 ->
  is_digit (digit_char d) = true /\ digit_val (digit_char d) = d
  /\ digit_char d <> "_"%char.
Proof.
  intros H.
  assert (Hd : d = 0 \/ d = 1 \/ d = 2 \/ d = 3 \/ d = 4 \/ d = 5 \/ d = 6
               \/ d = 7 \/ d = 8 \/ d = 9) by lia.
  repeat (destruct Hd as [->|Hd]; [repeat split; discriminate|]).
  subst d. repeat split; discriminate.
Qed.

Lemma digits_value_acc (l : list ascii) (acc : Z) :
  fold_left (fun a c => 10 * a + digit_val c) l acc
  = acc * 10 ^ zlen l + digits_value l.
Proof.
  unfold digits_value, zlen. revert acc.
  induction l as [|c l IH]; intros acc; simpl fold_left.
  - simpl. lia.
  - rewrite IH, (IH (10 * 0 + digit_val c)).
    replace (Z.of_nat (length (c :: l))) with (Z.of_nat (length l) + 1)
      by (simpl length; lia).
    rewrite Z.pow_add_r by lia. lia.
Qed.

Lemma digits_value_app (l1 l2 : list ascii) :
  digits_value (l1 ++ l2) = digits_value l1 * 10 ^ zlen l2 + digits_value l2.
Proof.
  unfold digits_value at 1. rewrite fold_left_app.
  fold (digits_value l1). apply digits_value_acc.
Qed.

Lemma digits_value_zeros (j : nat) :
  digits_value (replicate j "0"%char) = 0.
Proof.
  induction j as [|j IH]; [reflexivity|].
  change (replicate (S j) "0"%char) with (["0"%char] ++ replicate j "0"%char).
  rewrite digits_value_app, IH. reflexivity.
Qed.

Lemma zlen_app (l1 l2 : list ascii) : zlen (l1 ++ l2) = zlen l1 + zlen l2.
Proof. unfold zlen. rewrite length_app. lia. Qed.

Lemma zlen_replicate (j : nat) (c : ascii) : zlen (replicate j c) = Z.of_nat j.
Proof. unfold zlen. rewrite length_replicate. reflexivity. Qed.

Lemma zlen_nonneg (l : list ascii) : 0 <= zlen l.
Proof. unfold zlen. lia. Qed.

Lemma digits_fuel_spec (f : nat) (z : Z) :
  0 <= z < 10 * 2 ^ Z.of_nat f ->
  digit_list (digits_fuel f z) /\ digits_value (digits_fuel f z) = z
  /\ digits_fuel f z <> [].
Proof.
  revert z. induction f as [|f IH]; intros z Hz.
  - simpl in *. destruct (digit_char_spec z) as (H1 & H2 & _); [lia|].
    repeat split; [repeat constructor; exact H1 | | discriminate].
    unfold digits_value; simpl. lia.
  - simpl digits_fuel. destruct (Z.ltb_spec z 10) as [Hlt|Hge].
    + destruct (digit_char_spec z) as (H1 & H2 & _); [lia|].
      repeat split; [repeat constructor; exact H1 | | discriminate].
      unfold digits_value; simpl. lia.
    + assert (Hpow : 2 ^ Z.of_nat (S f) = 2 * 2 ^ Z.of_nat f).
      { rewrite Nat2Z.inj_succ, Z.pow_succ_r by lia. reflexivity. }
      assert (Hp : 0 < 2 ^ Z.of_nat f) by (apply Z.pow_pos_nonneg; lia).
      destruct (IH (z / 10)) as (I1 & I2 & I3).
      { split; [apply Z.div_pos; lia|].
        apply Z.div_lt_upper_bound; lia. }
      destruct (digit_char_spec (z mod 10)) as (H1 & H2 & _).
      { apply Z.mod_pos_bound; lia. }
      repeat split.
      * apply Forall_app; split; [exact I1 | repeat constructor; exact H1].
      * rewrite digits_value_app, I2.
        unfold digits_value at 1; simpl fold_left. rewrite H2.
        change (zlen [digit_char (z mod 10)]) with 1.
        pose proof (Z.div_mod z 10). lia.
      * intros Habs. apply app_eq_nil in Habs as [_ Habs]. discriminate.
Qed.

Lemma digits_spec (z : Z) :
  0 <= z ->
  digit_list (digits z) /\ digits_value (digits z) = z /\ digits z <> [].
Proof.
  intros Hz. apply digits_fuel_spec. split; [exact Hz|].
  rewrite Z2Nat.id by apply Z.log2_nonneg.
  destruct (Z.eq_dec z 0) as [->|Hne]; [simpl; lia|].
  pose proof (Z.log2_spec z ltac:(lia)) as [_ Hup].
  rewrite Z.pow_succ_r in Hup by apply Z.log2_nonneg.
  assert (0 < 2 ^ Z.log2 z) by (apply Z.pow_pos_nonneg; [lia | apply Z.log2_nonneg]).
  lia.
Qed.

(* ===================================================================== *)
(** * Reading back what [render] writes *)
(* ===================================================================== *)

Lemma span_digits_all (d : list ascii) :
  digit_list d -> span_digits d = (d, []).
Proof.
  induction 1 as [|c d Hc _ IH]; simpl; [reflexivity|].
  rewrite Hc, IH. reflexivity.
Qed.

Lemma span_digits_stop (d : list ascii) (c : ascii) (r : list ascii) :
  digit_list d -> is_digit c = false ->
  span_digits (d ++ c :: r) = (d, c :: r).
Proof.
  intros Hd Hc. induction Hd as [|c' d Hc' _ IH]; simpl.
  - rewrite Hc. reflexivity.
  - rewrite Hc', IH. reflexivity.
Qed.

Lemma parse_exponent_part (n : Z) :
  parse_exponent (exponent_part n) = Some (n - 1).
Proof.
  unfold exponent_part, parse_exponent.
  destruct (digits_spec (Z.abs (n - 1))) as (Hd & Hv & Hne); [lia|].
  change (Ascii.eqb "e" "e") with true. cbv iota.
  rewrite (span_digits_all _ Hd).
  destruct (digits (Z.abs (n - 1))) as [|c d] eqn:E; [congruence|].
  rewrite Hv.
  destruct (Z.leb_spec 0 (n - 1)).
  - change (Ascii.eqb "+" "+") with true. cbv iota. f_equal. lia.
  - change (Ascii.eqb "-" "+") with false. change (Ascii.eqb "-" "-") with true.
    cbv iota. f_equal. lia.
Qed.

Lemma digit_list_app (l1 l2 : list ascii) :
  digit_list l1 -> digit_list l2 -> digit_list (l1 ++ l2).
Proof. intros H1 H2. apply Forall_app; split; assumption. Qed.

Lemma digit_list_zeros (j : nat) : digit_list (replicate j "0"%char).
Proof. apply Forall_replicate. reflexivity. Qed.

Lemma digit_list_take (j : nat) (d : list ascii) :
  digit_list d -> digit_list (take j d).
Proof. apply Forall_take. Qed.

Lemma digit_list_drop (j : nat) (d : list ascii) :
  digit_list d -> digit_list (drop j d).
Proof. apply Forall_drop. Qed.

Lemma dec_round_shift (neg : bool) (s j : Z) :
  0 <= j -> dec_round neg (s * 10 ^ j) 0 = dec_round neg s j.
Proof.
  intros Hj. unfold dec_round. simpl (0 <=? 0).
  destruct (Z.leb_spec 0 j); [|lia].
  rewrite Z.pow_0_r, Z.mul_1_r. reflexivity.
Qed.

Lemma exponent_part_head (n : Z) :
  exists r, exponent_part n = "e"%char :: r.
Proof. unfold exponent_part. eauto. Qed.

Lemma parse_decimal_render (neg : bool) (d : list ascii) (n : Z) :
  digit_list d -> d <> [] ->
  parse_decimal neg (render d n)
  = Some (dec_round neg (digits_value d) (n - zlen d)).
Proof.
  intros Hd Hne. unfold render.
  pose proof (zlen_nonneg d) as Hk.
  destruct ((zlen d <=? n) && (n <=? 21))%bool eqn:C1.
  { apply andb_true_iff in C1 as [C1 _]. apply Z.leb_le in C1.
    unfold parse_decimal.
    rewrite span_digits_all
      by (apply digit_list_app; [exact Hd | apply digit_list_zeros]).
    destruct (d ++ replicate (Z.to_nat (n - zlen d)) "0"%char) eqn:E.
    { apply app_eq_nil in E as [E _]. contradiction. }
    rewrite <- E. simpl parse_exponent. cbv iota.
    rewrite app_nil_r, digits_value_app, digits_value_zeros, zlen_replicate.
    rewrite Z2Nat.id by lia. change (zlen []) with 0.
    rewrite Z.add_0_r, Z.sub_0_r. rewrite dec_round_shift by lia. reflexivity. }
  destruct ((0 <? n) && (n <=? 21))%bool eqn:C2.
  { apply andb_true_iff in C2 as [C2 C2']. apply Z.ltb_lt in C2.
    assert (Hn : n < zlen d).
    { apply andb_false_iff in C1 as [C1|C1];
        [apply Z.leb_gt in C1; lia | congruence]. }
    unfold parse_decimal.
    rewrite span_digits_stop by (auto using digit_list_take).
    change (Ascii.eqb "." ".") with true. cbv iota.
    rewrite span_digits_all by (auto using digit_list_drop).
    destruct (take (Z.to_nat n) d) as [|c t] eqn:E.
    { exfalso. destruct d as [|c d]; [contradiction|].
      destruct (Z.to_nat n) eqn:En; [lia | discriminate]. }
    rewrite <- E. simpl parse_exponent. cbv iota.
    rewrite take_drop. f_equal. f_equal.
    unfold zlen. rewrite length_drop. unfold zlen in Hn. lia. }
  destruct ((-6 <? n) && (n <=? 0))%bool eqn:C3.
  { apply andb_true_iff in C3 as [_ C3]. apply Z.leb_le in C3.
    unfold parse_decimal.
    change ("0"%char :: "."%char :: replicate (Z.to_nat (- n)) "0"%char ++ d)
      with (["0"%char] ++ "."%char :: replicate (Z.to_nat (- n)) "0"%char ++ d).
    rewrite span_digits_stop by (repeat constructor).
    change (Ascii.eqb "." ".") with true. cbv iota.
    rewrite span_digits_all
      by (apply digit_list_app; [apply digit_list_zeros | exact Hd]).
    simpl parse_exponent. cbv iota.
    rewrite !digits_value_app, digits_value_zeros, !zlen_app, zlen_replicate.
    rewrite Z2Nat.id by lia.
    change (digits_value ["0"%char]) with 0. f_equal. f_equal; lia. }
  destruct d as [|c d]; [contradiction|].
  inversion Hd as [|? ? Hc Hd']; subst.
  destruct (exponent_part_head n) as [r Hr].
  pose proof (parse_exponent_part n) as Hexp.
  destruct d as [|c' d].
  - unfold parse_decimal.
    change (c :: exponent_part n) with ([c] ++ exponent_part n).
    rewrite Hr, span_digits_stop by (repeat constructor; assumption).
    change (Ascii.eqb "e" ".") with false. cbv iota.
    rewrite <- Hr, Hexp. simpl app. f_equal. f_equal.
    change (zlen []) with 0. change (zlen [c]) with 1. lia.
  - unfold parse_decimal.
    change (c :: "."%char :: (c' :: d) ++ exponent_part n)
      with ([c] ++ "."%char :: (c' :: d) ++ exponent_part n).
    rewrite span_digits_stop by (repeat constructor; assumption).
    change (Ascii.eqb "." ".") with true. cbv iota.
    rewrite Hr, span_digits_stop by (auto; reflexivity).
    rewrite <- Hr, Hexp. f_equal. f_equal.
    change (c :: c' :: d) with ([c] ++ (c' :: d)). rewrite zlen_app.
    change (zlen [c]) with 1. lia.
Qed.

(* ===================================================================== *)
(** * Rounding is the identity on doubles *)
(* ===================================================================== *)

Lemma pow2_pos (k : Z) : 0 <= k -> 0 < 2 ^ k.
Proof. intros. apply Z.pow_pos_nonneg; lia. Qed.

Lemma ge_pow2_scaled (p q l K : Z) :
  0 <= K -> 0 <= l + K ->
  ge_pow2 p q l = (q * 2 ^ (l + K) <=? p * 2 ^ K).
Proof.
  intros HK HlK. unfold ge_pow2.
  pose proof (pow2_pos K HK) as HpK.
  destruct (Z.leb_spec 0 l) as [Hl|Hl].
  - rewrite Z.pow_add_r by lia.
    destruct (Z.leb_spec (q * 2 ^ l) p), (Z.leb_spec (q * (2 ^ l * 2 ^ K)) (p * 2 ^ K));
      try reflexivity; nia.
  - replace (2 ^ K) with (2 ^ (- l) * 2 ^ (l + K))
      by (rewrite <- Z.pow_add_r by lia; f_equal; lia).
    pose proof (pow2_pos (l + K) HlK).
    destruct (Z.leb_spec q (p * 2 ^ (- l))),
             (Z.leb_spec (q * 2 ^ (l + K)) (p * (2 ^ (- l) * 2 ^ (l + K))));
      try reflexivity; nia.
Qed.

Lemma ge_pow2_mono (p q l l' : Z) :
  0 < q -> l' <= l -> ge_pow2 p q l = true -> ge_pow2 p q l' = true.
Proof.
  intros Hq Hle H.
  rewrite (ge_pow2_scaled p q l (Z.abs l + Z.abs l')) in H by lia.
  rewrite (ge_pow2_scaled p q l' (Z.abs l + Z.abs l')) by lia.
  apply Z.leb_le in H. apply Z.leb_le.
  assert (2 ^ (l' + (Z.abs l + Z.abs l')) <= 2 ^ (l + (Z.abs l + Z.abs l')))
    by (apply Z.pow_le_mono_r; lia).
  nia.
Qed.

Lemma flog2_spec (p q : Z) :
  0 < p -> 0 < q ->
  ge_pow2 p q (flog2 p q) = true /\ ge_pow2 p q (flog2 p q + 1) = false.
Proof.
  intros Hp Hq.
  pose proof (Z.log2_spec p Hp) as [Ha1 Ha2].
  pose proof (Z.log2_spec q Hq) as [Hb1 Hb2].
  pose proof (Z.log2_nonneg p) as Ha. pose proof (Z.log2_nonneg q) as Hb.
  set (a := Z.log2 p) in *. set (b := Z.log2 q) in *.
  pose proof (pow2_pos a Ha) as HA. pose proof (pow2_pos b Hb) as HB.
  rewrite Z.pow_succ_r in Ha2, Hb2 by assumption.
  assert (Hup : ge_pow2 p q (a - b + 1) = false).
  { rewrite (ge_pow2_scaled p q _ (b + a)) by lia. apply Z.leb_gt.
    assert (E1 : 2 ^ (a - b + 1 + (b + a)) = 2 * 2 ^ a * 2 ^ a).
    { replace (a - b + 1 + (b + a)) with (Z.succ (a + a)) by lia.
      rewrite Z.pow_succ_r, Z.pow_add_r by lia. ring. }
    assert (E2 : 2 ^ (b + a) = 2 ^ b * 2 ^ a) by (apply Z.pow_add_r; lia).
    rewrite E1, E2.
    assert (p * (2 ^ b * 2 ^ a) < 2 * 2 ^ a * (2 ^ b * 2 ^ a)) by nia.
    assert (2 ^ b * (2 * 2 ^ a * 2 ^ a) <= q * (2 * 2 ^ a * 2 ^ a)) by nia.
    lia. }
  assert (Hlo : ge_pow2 p q (a - b - 1) = true).
  { rewrite (ge_pow2_scaled p q _ (b + 1)) by lia. apply Z.leb_le.
    replace (a - b - 1 + (b + 1)) with a by lia.
    replace (b + 1) with (Z.succ b) by lia.
    rewrite Z.pow_succ_r by assumption. nia. }
  unfold flog2. fold a b.
  destruct (ge_pow2 p q (a - b)) eqn:E.
  - split; [exact E | exact Hup].
  - split; [exact Hlo|]. replace (a - b - 1 + 1) with (a - b) by lia. exact E.
Qed.

Lemma flog2_unique (p q l : Z) :
  0 < p -> 0 < q ->
  ge_pow2 p q l = true -> ge_pow2 p q (l + 1) = false -> flog2 p q = l.
Proof.
  intros Hp Hq H1 H2. destruct (flog2_spec p q Hp Hq) as [F1 F2].
  destruct (Z.lt_trichotomy (flog2 p q) l) as [Hlt|[Heq|Hgt]]; [|exact Heq|].
  - rewrite (ge_pow2_mono p q l (flog2 p q + 1)) in F2 by (auto; lia).
    discriminate.
  - rewrite (ge_pow2_mono p q (flog2 p q) (l + 1)) in H2 by (auto; lia).
    discriminate.
Qed.

Lemma represents_scaled (p q m e K : Z) :
  represents p q m e -> 0 <= K -> 0 <= e + K ->
  p * 2 ^ K = m * 2 ^ (e + K) * q.
Proof.
  unfold represents. intros H HK HeK.
  destruct (Z.leb_spec 0 e).
  - rewrite Z.pow_add_r by lia. subst p. ring.
  - replace (2 ^ K) with (2 ^ (- e) * 2 ^ (e + K))
      by (rewrite <- Z.pow_add_r by lia; f_equal; lia).
    rewrite Z.mul_assoc, H. ring.
Qed.

Lemma flog2_exact (p q m e : Z) :
  0 < m -> 0 < q -> 0 < p -> represents p q m e ->
  flog2 p q = Z.log2 m + e.
Proof.
  intros Hm Hq Hp Hrep.
  pose proof (Z.log2_spec m Hm) as [Hc1 Hc2].
  pose proof (Z.log2_nonneg m) as Hc. set (c := Z.log2 m) in *.
  pose proof (represents_scaled p q m e (Z.abs e) Hrep ltac:(lia) ltac:(lia)) as HK.
  pose proof (pow2_pos (e + Z.abs e) ltac:(lia)) as Hx.
  apply flog2_unique; try assumption.
  - rewrite (ge_pow2_scaled p q _ (Z.abs e)) by lia. apply Z.leb_le.
    rewrite HK. replace (c + e + Z.abs e) with (c + (e + Z.abs e)) by lia.
    rewrite (Z.pow_add_r 2 c (e + Z.abs e)) by lia.
    rewrite (Z.mul_comm q). apply Z.mul_le_mono_nonneg_r; [lia|].
    apply Z.mul_le_mono_nonneg_r; lia.
  - rewrite (ge_pow2_scaled p q _ (Z.abs e)) by lia. apply Z.leb_gt.
    rewrite HK. replace (c + e + 1 + Z.abs e) with (Z.succ c + (e + Z.abs e)) by lia.
    rewrite (Z.pow_add_r 2 (Z.succ c) (e + Z.abs e)) by lia.
    rewrite (Z.mul_comm q). apply Z.mul_lt_mono_pos_r; [lia|].
    apply Z.mul_lt_mono_pos_r; lia.
Qed.

Lemma round_half_even_exact (m d : Z) :
  0 < d -> round_half_even (m * d) d = m.
Proof.
  intros Hd. unfold round_half_even.
  rewrite Z.div_mul, Z.mod_mul by lia.
  destruct (Z.ltb_spec (2 * 0) d); [reflexivity | lia].
Qed.

Lemma canonical_inv (m e : Z) :
  canonical m e = true ->
  0 < m < 2 ^ 53 /\ -1074 <= e <= 971 /\ (2 ^ 52 <= m \/ e = -1074).
Proof.
  unfold canonical. rewrite !andb_true_iff, orb_true_iff.
  rewrite !Z.ltb_lt, !Z.leb_le, Z.eqb_eq. tauto.
Qed.

Lemma round_frac_exact (neg : bool) (p q m e : Z) :
  canonical m e = true -> 0 < q -> represents p q m e ->
  round_frac neg p q = Finite neg m e.
Proof.
  intros Hcan Hq Hrep.
  apply canonical_inv in Hcan as (Hm & He & Hnorm).
  assert (Hp : 0 < p).
  { unfold represents in Hrep. destruct (Z.leb_spec 0 e).
    - subst p. pose proof (pow2_pos e ltac:(lia)). nia.
    - pose proof (pow2_pos (- e) ltac:(lia)). nia. }
  unfold round_frac. destruct (Z.leb_spec p 0); [lia|].
  rewrite (flog2_exact p q m e) by (assumption || lia).
  assert (Hc : Z.log2 m <= 52).
  { assert (Z.log2 m < 53) by (apply Z.log2_lt_pow2; lia). lia. }
  assert (Hmax : Z.max (Z.log2 m + e - 52) (-1074) = e).
  { destruct Hnorm as [Hn| ->]; [|lia].
    assert (52 <= Z.log2 m) by (apply Z.log2_le_pow2; lia). lia. }
  rewrite Hmax.
  assert (Hmant : (if 0 <=? e then round_half_even p (q * 2 ^ e)
                   else round_half_even (p * 2 ^ (- e)) q) = m).
  { unfold represents in Hrep. destruct (Z.leb_spec 0 e).
    - subst p. rewrite <- Z.mul_assoc, (Z.mul_comm (2 ^ e) q).
      apply round_half_even_exact. pose proof (pow2_pos e ltac:(lia)). nia.
    - rewrite Hrep. apply round_half_even_exact. exact Hq. }
  rewrite Hmant.
  destruct (Z.eqb_spec m 0); [lia|].
  destruct (Z.eqb_spec m (2 ^ 53)); [lia|].
  destruct (Z.ltb_spec 971 e); [lia | reflexivity].
Qed.

Lemma exact_decimal_round (neg : bool) (m e : Z) :
  canonical m e = true ->
  let '(s, n) := exact_decimal m e in
  0 < s /\ dec_round neg s (n - zlen (digits s)) = Finite neg m e.
Proof.
  intros Hcan. pose proof (canonical_inv m e Hcan) as (Hm & He & _).
  unfold exact_decimal. destruct (Z.leb_spec 0 e) as [Hpos|Hneg].
  - pose proof (pow2_pos e Hpos). split; [nia|].
    rewrite Z.add_simpl_l || replace (zlen (digits (m * 2 ^ e)) - zlen (digits (m * 2 ^ e))) with 0 by lia.
    unfold dec_round. simpl (0 <=? 0). rewrite Z.pow_0_r, Z.mul_1_r.
    apply round_frac_exact; [assumption | lia|].
    unfold represents. destruct (Z.leb_spec 0 e); [ring | lia].
  - assert (0 < 5 ^ (- e)) by (apply Z.pow_pos_nonneg; lia).
    split; [nia|].
    replace (zlen (digits (m * 5 ^ (- e))) + e - zlen (digits (m * 5 ^ (- e))))
      with e by lia.
    unfold dec_round. destruct (Z.leb_spec 0 e); [lia|].
    apply round_frac_exact; [assumption | apply Z.pow_pos_nonneg; lia|].
    unfold represents. destruct (Z.leb_spec 0 e); [lia|].
    replace 10 with (5 * 2) by reflexivity.
    rewrite Z.pow_mul_l. ring.
Qed.

(* ===================================================================== *)
(** * [Number::toString] can be read back *)
(* ===================================================================== *)

Lemma round_frac_sign (neg neg' : bool) (p q m e : Z) :
  round_frac neg p q = Finite neg m e ->
  round_frac neg' p q = Finite neg' m e.
Proof.
  unfold round_frac. destruct (p <=? 0); [discriminate|].
  set (ex := Z.max (flog2 p q - 52) (-1074)).
  set (mt := if 0 <=? ex then round_half_even p (q * 2 ^ ex)
             else round_half_even (p * 2 ^ (- ex)) q).
  destruct (mt =? 0); [discriminate|].
  destruct (if mt =? 2 ^ 53 then (2 ^ 52, ex + 1) else (mt, ex)) as [m' e'].
  destruct (971 <? e'); [discriminate|].
  intros [= <- <-]. reflexivity.
Qed.

Lemma dec_round_sign (neg neg' : bool) (s e10 m e : Z) :
  dec_round neg s e10 = Finite neg m e ->
  dec_round neg' s e10 = Finite neg' m e.
Proof. unfold dec_round. destruct (0 <=? e10); apply round_frac_sign. Qed.

Lemma round_frac_keeps_sign (neg neg' : bool) (p q m e : Z) :
  round_frac neg p q = Finite neg' m e -> neg' = neg.
Proof.
  unfold round_frac. destruct (p <=? 0); [discriminate|].
  set (ex := Z.max (flog2 p q - 52) (-1074)).
  set (mt := if 0 <=? ex then round_half_even p (q * 2 ^ ex)
             else round_half_even (p * 2 ^ (- ex)) q).
  destruct (mt =? 0); [discriminate|].
  destruct (if mt =? 2 ^ 53 then (2 ^ 52, ex + 1) else (mt, ex)) as [m' e'].
  destruct (971 <? e'); [discriminate|].
  intros [= <- _ _]. reflexivity.
Qed.

Lemma dec_round_keeps_sign (neg neg' : bool) (s e10 m e : Z) :
  dec_round neg s e10 = Finite neg' m e -> neg' = neg.
Proof. unfold dec_round. destruct (0 <=? e10); apply round_frac_keeps_sign. Qed.

Lemma dec_round_nonpos (neg : bool) (s e10 : Z) :
  s <= 0 -> dec_round neg s e10 = Zero neg.
Proof.
  intros Hs. unfold dec_round, round_frac. destruct (Z.leb_spec 0 e10).
  - assert (0 < 10 ^ e10) by (apply Z.pow_pos_nonneg; lia).
    destruct (Z.leb_spec (s * 10 ^ e10) 0); [reflexivity | nia].
  - destruct (Z.leb_spec s 0); [reflexivity | lia].
Qed.

Lemma check_sound (m e s n : Z) :
  check m e s n = true ->
  0 < s /\ dec_round false s (n - zlen (digits s)) = Finite false m e.
Proof.
  unfold check. intros H. split.
  - destruct (Z.ltb_spec 0 s) as [Hs|Hs]; [exact Hs|].
    rewrite dec_round_nonpos in H by lia. discriminate.
  - destruct (dec_round false s (n - zlen (digits s))) as [| | |neg m' e'] eqn:E;
      try discriminate.
    apply andb_true_iff in H as [H1 H2].
    apply Z.eqb_eq in H1, H2. subst.
    rewrite (dec_round_keeps_sign _ _ _ _ _ _ E). reflexivity.
Qed.

Lemma candidate_sound (m e xp xq n0 k s n : Z) :
  candidate m e xp xq n0 k = Some (s, n) -> check m e s n = true.
Proof.
  unfold candidate.
  set (sp := if 0 <=? k - n0 then xp * 10 ^ (k - n0) else xp).
  set (sq := if 0 <=? k - n0 then xq else xq * 10 ^ (n0 - k)).
  set (hi := if sp / sq + 1 <? 10 ^ k then (sp / sq + 1, n0)
             else (10 ^ (k - 1), n0 + 1)).
  destruct (10 ^ (k - 1) <=? sp / sq); simpl andb;
    destruct (check m e (sp / sq) n0) eqn:Clo;
    destruct (check m e (fst hi) (snd hi)) eqn:Chi;
    destruct hi as [hs hn]; simpl in Chi;
    repeat match goal with
           | |- context [if ?b then _ else _] => destruct b
           end;
    intros [= <- <-]; assumption.
Qed.

Lemma shortest_sound (m e xp xq n0 : Z) (ks : list Z) (s n : Z) :
  shortest m e xp xq n0 ks = Some (s, n) -> check m e s n = true.
Proof.
  induction ks as [|k ks IH]; simpl; [discriminate|].
  destruct (candidate m e xp xq n0 k) as [[s' n']|] eqn:E; [|exact IH].
  intros [= <- <-]. eapply candidate_sound; eassumption.
Qed.

Lemma finite_chars_decimal (m e : Z) :
  canonical m e = true ->
  exists s n,
    finite_chars m e = render (digits s) n
    /\ 0 < s
    /\ dec_round false s (n - zlen (digits s)) = Finite false m e.
Proof.
  intros Hcan. unfold finite_chars.
  set (xp := if 0 <=? e then m * 2 ^ e else m).
  set (xq := if 0 <=? e then 1 else 2 ^ (- e)).
  destruct (shortest m e xp xq (decimal_exponent xp xq) (map Z.of_nat (seq 1 17)))
    as [[s n]|] eqn:E.
  - exists s, n. split; [reflexivity|].
    apply check_sound. eapply shortest_sound; eassumption.
  - pose proof (exact_decimal_round false m e Hcan) as H.
    destruct (exact_decimal m e) as [s n]. exists s, n.
    split; [reflexivity | exact H].
Qed.

Lemma render_head (d : list ascii) (n : Z) :
  digit_list d -> d <> [] ->
  exists c r, render d n = c :: r /\ is_digit c = true.
Proof.
  intros Hd Hne. destruct d as [|c d]; [contradiction|].
  inversion Hd as [|? ? Hc Hd']; subst.
  unfold render.
  destruct ((zlen (c :: d) <=? n) && (n <=? 21))%bool; [simpl; eauto|].
  destruct ((0 <? n) && (n <=? 21))%bool eqn:C2.
  { apply andb_true_iff in C2 as [C2 _]. apply Z.ltb_lt in C2.
    destruct (Z.to_nat n) eqn:En; [lia|]. simpl. eauto. }
  destruct ((-6 <? n) && (n <=? 0))%bool; [eexists _, _; split; reflexivity|].
  destruct d; eauto.
Qed.

Lemma digit_not_minus (c : ascii) :
  is_digit c = true -> Ascii.eqb c "-" = false /\ Ascii.eqb c "N" = false.
Proof.
  intros H. split.
  - destruct (Ascii.eqb_spec c "-"); [subst; discriminate | reflexivity].
  - destruct (Ascii.eqb_spec c "N"); [subst; discriminate | reflexivity].
Qed.

Lemma parse_unsigned_render (neg : bool) (s n : Z) :
  0 < s ->
  parse_unsigned neg (render (digits s) n)
  = Some (dec_round neg s (n - zlen (digits s))).
Proof.
  intros Hs. destruct (digits_spec s ltac:(lia)) as (Hd & Hv & Hne).
  destruct (render_head (digits s) n Hd Hne) as (c & r & Hr & Hc).
  unfold parse_unsigned. rewrite Hr, Hc, <- Hr.
  rewrite parse_decimal_render by assumption. rewrite Hv. reflexivity.
Qed.

Lemma parse_chars_render (s n : Z) :
  0 < s ->
  parse_chars (render (digits s) n)
  = Some (dec_round false s (n - zlen (digits s))).
Proof.
  intros Hs. destruct (digits_spec s ltac:(lia)) as (Hd & Hv & Hne).
  destruct (render_head (digits s) n Hd Hne) as (c & r & Hr & Hc).
  destruct (digit_not_minus c Hc) as [Hm HN].
  unfold parse_chars. rewrite Hr, Hm. simpl string_of_list_ascii.
  simpl String.eqb. rewrite HN. rewrite <- Hr.
  apply parse_unsigned_render; assumption.
Qed.

Lemma parse_to_chars (x : number) :
  wf x = true -> parse_chars (to_chars x) = Some (read_back x).
Proof.
  destruct x as [|neg|neg|neg m e]; simpl wf; intros Hwf.
  - reflexivity.
  - destruct neg; reflexivity.
  - reflexivity.
  - destruct (finite_chars_decimal m e Hwf) as (s & n & Hf & Hs & Hr).
    simpl to_chars. rewrite Hf. destruct neg; simpl sign_chars.
    + change (["-"%char] ++ render (digits s) n) with ("-"%char :: render (digits s) n).
      unfold parse_chars. change (Ascii.eqb "-" "-") with true. cbv iota.
      rewrite parse_unsigned_render by assumption.
      f_equal. apply (dec_round_sign false true). exact Hr.
    + simpl app. rewrite parse_chars_render by assumption. f_equal. exact Hr.
Qed.

Lemma NumberToString_roundtrip (x : number) :
  wf x = true -> parseNumber (NumberToString x) = Some (read_back x).
Proof.
  intros Hwf. unfold parseNumber, NumberToString.
  rewrite list_ascii_of_string_of_list_ascii. apply parse_to_chars, Hwf.
Qed.

(* ===================================================================== *)
(** * The text of a number holds no underscore *)
(* ===================================================================== *)

Lemma digit_list_no_underscore (d : list ascii) :
  digit_list d -> no_underscore d.
Proof.
  intros Hd. eapply Forall_impl; [exact Hd|].
  intros c Hc ->. discriminate.
Qed.

Lemma exponent_part_no_underscore (n : Z) : no_underscore (exponent_part n).
Proof.
  unfold exponent_part. constructor; [discriminate|].
  constructor; [destruct (0 <=? n - 1); discriminate|].
  apply digit_list_no_underscore, digits_spec. lia.
Qed.

Lemma render_no_underscore (d : list ascii) (n : Z) :
  digit_list d -> no_underscore (render d n).
Proof.
  intros Hd. pose proof (digit_list_no_underscore d Hd) as Hu.
  unfold render, no_underscore in *.
  repeat match goal with
         | |- context [if ?b then _ else _] => destruct b
         end.
  - apply Forall_app; split; [exact Hu|].
    apply Forall_replicate. discriminate.
  - apply Forall_app; split; [apply Forall_take, Hu|].
    constructor; [discriminate | apply Forall_drop, Hu].
  - constructor; [discriminate|]. constructor; [discriminate|].
    apply Forall_app; split; [apply Forall_replicate; discriminate | exact Hu].
  - destruct d as [|c d]; [constructor|].
    inversion Hu as [|? ? Hc Hu']; subst.
    destruct d as [|c' d].
    + constructor; [exact Hc | apply exponent_part_no_underscore].
    + constructor; [exact Hc|]. constructor; [discriminate|].
      apply Forall_app; split; [exact Hu' | apply exponent_part_no_underscore].
Qed.

Lemma to_chars_no_underscore (x : number) :
  wf x = true -> no_underscore (to_chars x).
Proof.
  destruct x as [|neg|neg|neg m e]; simpl wf; intros Hwf.
  - repeat constructor; discriminate.
  - destruct neg; repeat constructor; discriminate.
  - repeat constructor; discriminate.
  - destruct (finite_chars_decimal m e Hwf) as (s & n & Hf & Hs & _).
    simpl to_chars. rewrite Hf. apply Forall_app; split.
    + destruct neg; repeat constructor; discriminate.
    + apply render_no_underscore, digits_spec. lia.
Qed.

Lemma split_at_underscore (a a' b b' : list ascii) :
  no_underscore a -> no_underscore a' ->
  a ++ "_"%char :: b = a' ++ "_"%char :: b' -> a = a' /\ b = b'.
Proof.
  intros Ha. revert a'. induction Ha as [|c a Hc _ IH]; intros a' Ha' H.
  - destruct Ha' as [|c' a' Hc' _]; simpl in H.
    + injection H as ->. auto.
    + injection H as <- _. contradiction.
  - destruct Ha' as [|c' a' Hc' Ha']; simpl in H.
    + injection H as -> _. contradiction.
    + injection H as -> H. destruct (IH a' Ha' H) as [-> ->]. auto.
Qed.

Lemma list_ascii_of_string_app (s1 s2 : string) :
  list_ascii_of_string (s1 +:+ s2)
  = list_ascii_of_string s1 ++ list_ascii_of_string s2.
Proof.
  induction s1 as [|c s1 IH]; simpl; [reflexivity | rewrite IH; reflexivity].
Qed.

Lemma to_chars_inj (x y : number) :
  wf x = true -> wf y = true ->
  to_chars x = to_chars y -> read_back x = read_back y.
Proof.
  intros Hx Hy H.
  pose proof (parse_to_chars x Hx) as Px.
  pose proof (parse_to_chars y Hy) as Py.
  rewrite H in Px. congruence.
Qed.

Lemma strict_eq_read_back (x y : number) :
  is_finite x = true -> is_finite y = true ->
  strict_eq x y = true <-> read_back x = read_back y.
Proof.
  destruct x as [|a|a|a m e], y as [|b|b|b m' e']; simpl;
    try discriminate; intros _ _; split; try discriminate; try reflexivity.
  - rewrite !andb_true_iff, eqb_true_iff, !Z.eqb_eq. intros [[-> ->] ->].
    reflexivity.
  - intros [= -> -> ->]. rewrite eqb_reflx, !Z.eqb_refl. reflexivity.
Qed.

Lemma strict_eq_same_text (x y : number) :
  read_back x = read_back y -> to_chars x = to_chars y.
Proof.
  destruct x, y; simpl; try discriminate; try reflexivity;
    intros [= ]; subst; reflexivity.
Qed.

End NumberFacts.

(* ===================================================================== *)
(** * The normalizer *)
(* ===================================================================== *)

Lemma truthy_number_inv (v : option number) :
  truthy_number v = true -> exists x, v = Some x /\ ToBoolean x = true.
Proof. destruct v as [x|]; simpl; [eauto | discriminate]. Qed.

Lemma optional_get_inv (obj : option StormGlassPointSource) (key : string) (x : number) :
  optional_get obj key = Some x -> exists m, obj = Some m /\ m !! key = Some x.
Proof. destruct obj as [m|]; simpl; [eauto | discriminate]. Qed.

Lemma member_get_defined (obj : option StormGlassPointSource) (key : string) :
  truthy_number (optional_get obj key) = true ->
  member_get obj key = Ok (optional_get obj key).
Proof. destruct obj; simpl; [reflexivity | discriminate]. Qed.

Lemma field_at_truthy (obj : option StormGlassPointSource) (key : string) :
  truthy_number (optional_get obj key) = true ->
  field_at key obj (optional_get obj key).
Proof.
  intros H. destruct (truthy_number_inv _ H) as (x & Hx & _).
  destruct (optional_get_inv _ _ _ Hx) as (m & -> & Hm).
  exists m, x. simpl. auto.
Qed.

Ltac split_valid H :=
  unfold isValidPoint in H;
  repeat match type of H with
         | (_ && _)%bool = true =>
             let H' := fresh "Hv" in
             apply andb_true_iff in H; destruct H as [H H']
         end.

Lemma toForecastPoint_valid (point : StormGlassPoint.t) :
  isValidPoint point = true -> toForecastPoint point = Ok (readings point).
Proof.
  intros H. split_valid H. unfold toForecastPoint.
  repeat (rewrite member_get_defined by assumption; simpl).
  reflexivity.
Qed.

Lemma readings_projects (point : StormGlassPoint.t) :
  isValidPoint point = true ->
  projects stormGlassAPISource point (readings point).
Proof.
  intros H. split_valid H. unfold projects, readings; simpl.
  repeat split; auto using field_at_truthy.
Qed.

Lemma result_map_valid (l : list StormGlassPoint.t) :
  Forall (fun p => isValidPoint p = true) l ->
  result_map toForecastPoint l = Ok (map readings l).
Proof.
  induction 1 as [|p l Hp _ IH]; simpl; [reflexivity|].
  rewrite (toForecastPoint_valid _ Hp); simpl. rewrite IH. reflexivity.
Qed.

Lemma filter_all_valid (hs : list StormGlassPoint.t) :
  Forall (fun p => isValidPoint p = true) (List.filter isValidPoint hs).
Proof.
  apply List.Forall_forall. intros p Hp.
  apply List.filter_In in Hp. tauto.
Qed.

Lemma normalizeResponse_hours (hs : list StormGlassPoint.t) :
  normalizeResponse {| hours := Some hs |}
  = Ok (map readings (List.filter isValidPoint hs)).
Proof. unfold normalizeResponse; simpl. apply result_map_valid, filter_all_valid. Qed.

Lemma filter_sublist {A} (f : A -> bool) (l : list A) :
  sublist (List.filter f l) l.
Proof.
  induction l as [|x l IH]; simpl; [constructor|].
  destruct (f x); [apply sublist_skip | apply sublist_cons]; exact IH.
Qed.

Lemma filter_partition_length {A} (f : A -> bool) (l : list A) :
  (length (List.filter f l) + length (List.filter (fun x => negb (f x)) l)
   = length l)%nat.
Proof.
  induction l as [|x l IH]; simpl; [reflexivity|].
  destruct (f x); simpl; lia.
Qed.

Lemma truthy_at_iff (obj : option StormGlassPointSource) (key : string) :
  truthy_number (optional_get obj key) = true <-> truthy_at key obj.
Proof.
  split.
  - intros H. destruct (truthy_number_inv _ H) as (x & Hx & Ht).
    destruct (optional_get_inv _ _ _ Hx) as (m & -> & Hm). exists m, x; auto.
  - intros (m & v & -> & Hm & Hv). simpl. rewrite Hm. exact Hv.
Qed.

Lemma truthy_string_iff (v : option string) :
  truthy_string v = true <-> exists t, v = Some t /\ t <> EmptyString.
Proof.
  destruct v as [t|]; simpl.
  - rewrite negb_true_iff, String.eqb_neq. split; [eauto|].
    intros (t' & [= <-] & Hne). exact Hne.
  - split; [discriminate | intros (t & [=] & _)].
Qed.

Lemma ToBoolean_iff (v : number) :
  ToBoolean v = true <-> (forall s, v <> Zero s) /\ v <> NaN.
Proof.
  destruct v as [|neg|neg|neg m e]; simpl; split; intros H;
    try discriminate; try reflexivity; try (split; intros; discriminate).
  - destruct H as [_ H]. exfalso. apply H. reflexivity.
  - destruct H as [H _]. exfalso. apply (H neg). reflexivity.
Qed.

Lemma isValidPoint_iff (point : StormGlassPoint.t) :
  isValidPoint point = true <->
  (exists t, StormGlassPoint.time point = Some t /\ t <> EmptyString)
  /\ truthy_at stormGlassAPISource (StormGlassPoint.swellDirection point)
  /\ truthy_at stormGlassAPISource (StormGlassPoint.swellHeight point)
  /\ truthy_at stormGlassAPISource (StormGlassPoint.swellPeriod point)
  /\ truthy_at stormGlassAPISource (StormGlassPoint.waveDirection point)
  /\ truthy_at stormGlassAPISource (StormGlassPoint.waveHeight point)
  /\ truthy_at stormGlassAPISource (StormGlassPoint.windDirection point)
  /\ truthy_at stormGlassAPISource (StormGlassPoint.windSpeed point).
Proof.
  unfold isValidPoint. rewrite !andb_true_iff, truthy_string_iff, !truthy_at_iff.
  tauto.
Qed.

Lemma falsy_measurement_rejected (point : StormGlassPoint.t)
    (m : gmap string number) (v : number) :
  In (Some m) (measurements point) ->
  m !! stormGlassAPISource = Some v ->
  ToBoolean v = false ->
  isValidPoint point = false.
Proof.
  intros Hin Hm Hv. apply not_true_is_false. intros Hvalid.
  apply isValidPoint_iff in Hvalid.
  destruct Hvalid as (_ & H1 & H2 & H3 & H4 & H5 & H6 & H7).
  assert (Hbad : forall raw, raw = Some m -> truthy_at stormGlassAPISource raw -> False).
  { intros raw -> (m' & v' & [= <-] & Hm' & Hv'). congruence. }
  unfold measurements in Hin; simpl in Hin.
  repeat (destruct Hin as [Hin|Hin]; [eauto|]).
  exact Hin.
Qed.

(** C4. A raw record passes [isValidPoint] exactly when its time is a
    non-empty string and each of the seven measurement mappings holds a
    truthy number (defined, neither zero nor NaN) under the source name
    [noaa]; a record with a zero under the source name in any of the
    seven mappings is rejected. *)
Theorem C4_isValidPoint_accepts_iff (point : StormGlassPoint.t) :
  (isValidPoint point = true <->
     (exists t, StormGlassPoint.time point = Some t /\ t <> EmptyString)
     /\ truthy_at stormGlassAPISource (StormGlassPoint.swellDirection point)
     /\ truthy_at stormGlassAPISource (StormGlassPoint.swellHeight point)
     /\ truthy_at stormGlassAPISource (StormGlassPoint.swellPeriod point)
     /\ truthy_at stormGlassAPISource (StormGlassPoint.waveDirection point)
     /\ truthy_at stormGlassAPISource (StormGlassPoint.waveHeight point)
     /\ truthy_at stormGlassAPISource (StormGlassPoint.windDirection point)
     /\ truthy_at stormGlassAPISource (StormGlassPoint.windSpeed point))
  /\ (forall v : number,
        ToBoolean v = true <-> (forall s, v <> Zero s) /\ v <> NaN)
  /\ (forall (m : gmap string number) (s : bool),
        In (Some m) (measurements point) ->
        m !! stormGlassAPISource = Some (Zero s) ->
        isValidPoint point = false).
Proof.
  split; [apply isValidPoint_iff|]. split; [apply ToBoolean_iff|].
  intros m s Hin Hm. eapply falsy_measurement_rejected; eauto.
Qed.

(** C3. For a response with [N] hourly records of which [M] fail the
    validity check, [normalizeResponse] returns (without throwing) exactly
    [N - M] points; they stem, in the original order, from the valid
    records; each carries the time of its record unchanged and, per
    measurement, the number stored under the source name. *)
Theorem C3_normalizeResponse_filters_in_order (hs : list StormGlassPoint.t) :
  let N := length hs in
  let M := length (List.filter (fun r => negb (isValidPoint r)) hs) in
  exists (kept : list StormGlassPoint.t) (pts : list ForecastPoint.t),
    normalizeResponse {| hours := Some hs |} = Ok pts
    /\ length pts = (N - M)%nat
    /\ sublist kept hs
    /\ (forall r, In r kept <-> In r hs /\ isValidPoint r = true)
    /\ Forall2 (projects stormGlassAPISource) kept pts.
Proof.
  intros N M. exists (List.filter isValidPoint hs), (map readings (List.filter isValidPoint hs)).
  split; [apply normalizeResponse_hours|].
  split.
  { rewrite length_map. pose proof (filter_partition_length isValidPoint hs).
    subst N M. lia. }
  split; [apply filter_sublist|].
  split; [intros r; apply List.filter_In|].
  pose proof (filter_all_valid hs) as Hall.
  induction Hall as [|r l Hr _ IH]; simpl; constructor; auto using readings_projects.
Qed.

(* ===================================================================== *)
(** * The client *)
(* ===================================================================== *)

Section ClientFacts.

Context {W : Type}.
Variable imports : Imports W.
Variable this : StormGlass.t W.

Lemma cache_lookup (key : string) (w : W) :
  getForecastPointsFromCache this key w =
  match CacheUtil.get (StormGlass.cacheUtil this) key w with
  | (Returned (Some cached), w1) =>
      (Ok (Some cached), w1, [EvCacheGet key; EvLogInfo (hit_message key)])
  | (Returned None, w1) => (Ok None, w1, [EvCacheGet key])
  | (Raised e, w1) => (Throw (Foreign e), w1, [EvCacheGet key])
  end.
Proof.
  unfold getForecastPointsFromCache, bind, call.
  destruct (CacheUtil.get _ key w) as [[[cached|]|e] w1]; reflexivity.
Qed.

Lemma cache_store (key : string) (pts : list ForecastPoint.t) (w : W) :
  setForecastPointsInCache imports this key pts w =
  match CacheUtil.set (StormGlass.cacheUtil this) key pts (cacheTtl (stormGlassResourceConfig imports)) w with
  | (Returned b, w1) =>
      (Ok b, w1, [EvLogInfo (update_message key); EvCacheSet key pts (cacheTtl (stormGlassResourceConfig imports))])
  | (Raised e, w1) =>
      (Throw (Foreign e), w1,
       [EvLogInfo (update_message key); EvCacheSet key pts (cacheTtl (stormGlassResourceConfig imports))])
  end.
Proof.
  unfold setForecastPointsInCache, bind, call, logger_info; simpl.
  destruct (CacheUtil.set _ key pts _ w) as [[b|e] w1]; reflexivity.
Qed.

Lemma normalizeResponse_cases (body : StormGlassForecastResponse) :
  normalizeResponse body =
  match hours body with
  | Some hs => Ok (map readings (List.filter isValidPoint hs))
  | None => Throw (undefined_read "filter")
  end.
Proof.
  destruct body as [[hs|]]; simpl; [apply normalizeResponse_hours | reflexivity].
Qed.

Lemma api_fetch (lat lng : number) (w : W) :
  getForecastPointsFromApi imports this lat lng w =
  match request_outcome imports this lat lng w with
  | (Returned response, w1) =>
      match normalizeResponse (Response.data response) with
      | Ok pts => (Ok pts, w1, [request_event imports lat lng w])
      | Throw err => (Throw (rethrown err), w1, [request_event imports lat lng w])
      end
  | (Raised e, w1) => (Throw (rethrown (Foreign e)), w1, [request_event imports lat lng w])
  end.
Proof.
  unfold getForecastPointsFromApi, request_outcome, request_event, bind,
    try_catch, call, lift, TimeUtil_getUnixTimeForAFutureDay; simpl.
  destruct (Request.get _ _ _ w) as [[response|e] w1]; simpl.
  - rewrite normalizeResponse_cases.
    destruct (hours (Response.data response)); reflexivity.
  - unfold rethrown, isRequestError; simpl.
    destruct (foreign_response e); reflexivity.
Qed.

Lemma fetchPoints_hit (lat lng : number) (w w1 : W)
    (cached : list ForecastPoint.t) :
  CacheUtil.get (StormGlass.cacheUtil this) (getCacheKey lat lng) w = (Returned (Some cached), w1) ->
  fetchPoints imports this lat lng w =
  (Ok cached, w1,
   [EvCacheGet (getCacheKey lat lng);
    EvLogInfo (hit_message (getCacheKey lat lng))]).
Proof.
  intros H. unfold fetchPoints, bind. rewrite cache_lookup, H. reflexivity.
Qed.

Lemma fetchPoints_lookup_throws (lat lng : number) (w w1 : W) (e : ForeignError) :
  CacheUtil.get (StormGlass.cacheUtil this) (getCacheKey lat lng) w = (Raised e, w1) ->
  fetchPoints imports this lat lng w =
  (Throw (Foreign e), w1, [EvCacheGet (getCacheKey lat lng)]).
Proof.
  intros H. unfold fetchPoints, bind. rewrite cache_lookup, H. reflexivity.
Qed.

Lemma fetchPoints_miss (lat lng : number) (w w1 : W) :
  CacheUtil.get (StormGlass.cacheUtil this) (getCacheKey lat lng) w = (Returned None, w1) ->
  fetchPoints imports this lat lng w =
  match getForecastPointsFromApi imports this lat lng w1 with
  | (Ok pts, w2, t) =>
      match CacheUtil.set (StormGlass.cacheUtil this) (getCacheKey lat lng) pts (cacheTtl (stormGlassResourceConfig imports)) w2 with
      | (Returned _, w3) =>
          (Ok pts, w3,
           EvCacheGet (getCacheKey lat lng) :: t ++
           [EvLogInfo (update_message (getCacheKey lat lng));
            EvCacheSet (getCacheKey lat lng) pts (cacheTtl (stormGlassResourceConfig imports))])%list
      | (Raised e, w3) =>
          (Throw (Foreign e), w3,
           EvCacheGet (getCacheKey lat lng) :: t ++
           [EvLogInfo (update_message (getCacheKey lat lng));
            EvCacheSet (getCacheKey lat lng) pts (cacheTtl (stormGlassResourceConfig imports))])%list
      end
  | (Throw err, w2, t) => (Throw err, w2, EvCacheGet (getCacheKey lat lng) :: t)
  end.
Proof.
  intros H. unfold fetchPoints, bind. rewrite cache_lookup, H.
  destruct (getForecastPointsFromApi imports this lat lng w1) as [[[pts|err] w2] t];
    [|reflexivity].
  rewrite cache_store.
  destruct (CacheUtil.set (StormGlass.cacheUtil this) _ pts (cacheTtl (stormGlassResourceConfig imports)) w2) as [[b|e] w3]; simpl;
    rewrite ?app_nil_r; reflexivity.
Qed.

Lemma fetchPoints_miss_fresh (lat lng : number) (w w1 w2 w3 : W)
    (response : Response.t) (pts : list ForecastPoint.t) (b : bool) :
  CacheUtil.get (StormGlass.cacheUtil this) (getCacheKey lat lng) w = (Returned None, w1) ->
  request_outcome imports this lat lng w1 = (Returned response, w2) ->
  normalizeResponse (Response.data response) = Ok pts ->
  CacheUtil.set (StormGlass.cacheUtil this) (getCacheKey lat lng) pts (cacheTtl (stormGlassResourceConfig imports)) w2 = (Returned b, w3) ->
  fetchPoints imports this lat lng w =
  (Ok pts, w3,
   [EvCacheGet (getCacheKey lat lng);
    request_event imports lat lng w1;
    EvLogInfo (update_message (getCacheKey lat lng));
    EvCacheSet (getCacheKey lat lng) pts (cacheTtl (stormGlassResourceConfig imports))]).
Proof.
  intros Hget Hreq Hnorm Hset.
  rewrite (fetchPoints_miss _ _ _ _ Hget), api_fetch, Hreq, Hnorm, Hset.
  reflexivity.
Qed.

End ClientFacts.

(* ===================================================================== *)
(** * Cache-aside behaviour of [fetchPoints] *)
(* ===================================================================== *)

(** C1. When the cache lookup yields a present, non-empty sequence,
    [fetchPoints] returns that sequence right after the lookup: the
    transport is not called and nothing is written to the cache. *)
Theorem C1_cache_hit_short_circuit {W : Type} (imports : Imports W)
    (this : StormGlass.t W) (lat lng : number) (w w1 : W)
    (cached : list ForecastPoint.t) :
  CacheUtil.get (StormGlass.cacheUtil this) (getCacheKey lat lng) w
    = (Returned (Some cached), w1) ->
  cached <> [] ->
  exists trace,
    fetchPoints imports this lat lng w = (Ok cached, w1, trace)
    /\ trace = [EvCacheGet (getCacheKey lat lng);
                EvLogInfo (hit_message (getCacheKey lat lng))]
    /\ upstream_calls trace = []
    /\ cache_writes trace = [].
Proof.
  intros Hget _. eexists. split; [apply fetchPoints_hit; eassumption|].
  repeat split.
Qed.

Lemma C1_witness :
  exists trace,
    fetchPoints Stub.imports
      (Stub.client (Returned (Stub.body [])) (Returned (Some [Stub.point "t1" 1]))
         (Returned true))
      (of_Z 10) (of_Z 20) tt
    = (Ok [Stub.point "t1" 1], tt, trace)
    /\ trace = [EvCacheGet (getCacheKey (of_Z 10) (of_Z 20));
                EvLogInfo (hit_message (getCacheKey (of_Z 10) (of_Z 20)))]
    /\ upstream_calls trace = []
    /\ cache_writes trace = [].
Proof.
  apply (C1_cache_hit_short_circuit Stub.imports
           (Stub.client (Returned (Stub.body [])) (Returned (Some [Stub.point "t1" 1]))
              (Returned true)) (of_Z 10) (of_Z 20) tt tt [Stub.point "t1" 1]).
  - reflexivity.
  - discriminate.
Defined.



(** C6 fails as stated: with a present but empty cached sequence the
    lookup counts as a hit.  The transport, which would have delivered a
    point, is not called, nothing is written and the empty sequence is
    returned. *)
Lemma C6_counterexample :
  let this := Stub.client (Returned (Stub.body [Stub.rawPoint "t1" 1]))
                (Returned (Some [])) (Returned true) in
  CacheUtil.get (StormGlass.cacheUtil this) (getCacheKey (of_Z 10) (of_Z 20)) tt
    = (Returned (Some []), tt)
  /\ fetchPoints Stub.imports this (of_Z 10) (of_Z 20) tt
     = (Ok [], tt,
        [EvCacheGet (getCacheKey (of_Z 10) (of_Z 20));
         EvLogInfo (hit_message (getCacheKey (of_Z 10) (of_Z 20)))])
  /\ upstream_calls
       (snd (fetchPoints Stub.imports this (of_Z 10) (of_Z 20) tt)) = []
  /\ cache_writes
       (snd (fetchPoints Stub.imports this (of_Z 10) (of_Z 20) tt)) = [].
Proof. repeat split. Qed.

(** C6, amended.  In every call, whatever sequence the lookup yields,
    empty or not, is a hit: it is returned without calling the transport
    or writing the cache, whatever the transport or the cache write would
    have done.  Only an absent value ([undefined]) is a miss: then the
    request is the next call made, and when it resolves, the payload
    normalizes and the cache write returns, the fresh sequence is written
    under the key and returned. *)
Theorem C6_only_absent_is_a_miss {W : Type} (imports : Imports W)
    (this : StormGlass.t W) (lat lng : number) (w w1 : W)
    (lookup : option (list ForecastPoint.t)) :
  CacheUtil.get (StormGlass.cacheUtil this) (getCacheKey lat lng) w
    = (Returned lookup, w1) ->
  match lookup with
  | Some cached =>
      fetchPoints imports this lat lng w
      = (Ok cached, w1,
         [EvCacheGet (getCacheKey lat lng);
          EvLogInfo (hit_message (getCacheKey lat lng))])
  | None =>
      (exists r w2 rest,
         fetchPoints imports this lat lng w
         = (r, w2,
            EvCacheGet (getCacheKey lat lng)
            :: request_event imports lat lng w1 :: rest))
      /\ (forall (w2 w3 : W) (response : Response.t)
                 (pts : list ForecastPoint.t) (b : bool),
            request_outcome imports this lat lng w1 = (Returned response, w2) ->
            normalizeResponse (Response.data response) = Ok pts ->
            CacheUtil.set (StormGlass.cacheUtil this) (getCacheKey lat lng) pts
              (cacheTtl (stormGlassResourceConfig imports)) w2
              = (Returned b, w3) ->
            fetchPoints imports this lat lng w
            = (Ok pts, w3,
               [EvCacheGet (getCacheKey lat lng);
                request_event imports lat lng w1;
                EvLogInfo (update_message (getCacheKey lat lng));
                EvCacheSet (getCacheKey lat lng) pts
                  (cacheTtl (stormGlassResourceConfig imports))]))
  end.
Proof.
  intros Hget. destruct lookup as [cached|].
  - apply fetchPoints_hit; assumption.
  - split.
    + rewrite (fetchPoints_miss _ _ _ _ _ _ Hget), api_fetch.
      destruct (request_outcome imports this lat lng w1) as [[response|e] w2].
      * destruct (normalizeResponse (Response.data response)) as [pts|err].
        -- destruct (CacheUtil.set _ _ pts _ w2) as [[b|e] w3]; simpl; eauto.
        -- simpl; eauto.
      * simpl; eauto.
    + intros w2 w3 response pts b Hreq Hnorm Hset.
      eapply fetchPoints_miss_fresh; eassumption.
Qed.

Lemma C6_witness :
  fetchPoints Stub.imports
    (Stub.client (Raised Stub.networkError) (Returned (Some []))
       (Raised Stub.cacheDown))
    (of_Z 10) (of_Z 20) tt
  = (Ok [], tt,
     [EvCacheGet (getCacheKey (of_Z 10) (of_Z 20));
      EvLogInfo (hit_message (getCacheKey (of_Z 10) (of_Z 20)))])
  /\ fetchPoints Stub.imports
       (Stub.client (Returned (Stub.body [Stub.rawPoint "t1" 1]))
          (Returned None) (Returned true))
       (of_Z 10) (of_Z 20) tt
     = (Ok (map readings [Stub.rawPoint "t1" 1]), tt,
        [EvCacheGet (getCacheKey (of_Z 10) (of_Z 20));
         request_event Stub.imports (of_Z 10) (of_Z 20) tt;
         EvLogInfo (update_message (getCacheKey (of_Z 10) (of_Z 20)));
         EvCacheSet (getCacheKey (of_Z 10) (of_Z 20))
           (map readings [Stub.rawPoint "t1" 1])
           (cacheTtl (stormGlassResourceConfig Stub.imports))]).
Proof.
  split.
  - apply (C6_only_absent_is_a_miss Stub.imports
             (Stub.client (Raised Stub.networkError) (Returned (Some []))
                (Raised Stub.cacheDown))
             (of_Z 10) (of_Z 20) tt tt (Some [])).
    reflexivity.
  - destruct (C6_only_absent_is_a_miss Stub.imports
                (Stub.client (Returned (Stub.body [Stub.rawPoint "t1" 1]))
                   (Returned None) (Returned true))
                (of_Z 10) (of_Z 20) tt tt None eq_refl) as [_ Hfresh].
    apply (Hfresh tt tt (Stub.body [Stub.rawPoint "t1" 1])
             (map readings [Stub.rawPoint "t1" 1]) true).
    + reflexivity.
    + vm_compute. reflexivity.
    + reflexivity.
Defined.

(** C8. On a miss with a successful fetch, a cache write that reports
    failure (returns [false]) does not fail the call: the fresh sequence
    is returned. *)
Theorem C8_failed_write_not_propagated {W : Type} (imports : Imports W)
    (this : StormGlass.t W) (lat lng : number) (w w1 w2 w3 : W)
    (response : Response.t) (pts : list ForecastPoint.t) :
  CacheUtil.get (StormGlass.cacheUtil this) (getCacheKey lat lng) w
    = (Returned None, w1) ->
  request_outcome imports this lat lng w1 = (Returned response, w2) ->
  normalizeResponse (Response.data response) = Ok pts ->
  CacheUtil.set (StormGlass.cacheUtil this) (getCacheKey lat lng) pts
    (cacheTtl (stormGlassResourceConfig imports)) w2 = (Returned false, w3) ->
  exists trace, fetchPoints imports this lat lng w = (Ok pts, w3, trace).
Proof.
  intros Hget Hreq Hnorm Hset. eexists.
  eapply fetchPoints_miss_fresh; eassumption.
Qed.

Lemma C8_witness :
  exists trace,
    fetchPoints Stub.imports
      (Stub.client (Returned (Stub.body [Stub.rawPoint "t1" 1]))
         (Returned None) (Returned false))
      (of_Z 10) (of_Z 20) tt
    = (Ok (map readings [Stub.rawPoint "t1" 1]), tt, trace).
Proof.
  apply (C8_failed_write_not_propagated Stub.imports
           (Stub.client (Returned (Stub.body [Stub.rawPoint "t1" 1]))
              (Returned None) (Returned false))
           (of_Z 10) (of_Z 20) tt tt tt tt
           (Stub.body [Stub.rawPoint "t1" 1])
           (map readings [Stub.rawPoint "t1" 1])).
  - reflexivity.
  - reflexivity.
  - vm_compute. reflexivity.
  - reflexivity.
Defined.

(** C9 fails as stated: a cache read that throws is not turned into a
    miss.  The error reaches the caller and the transport, which would
    have answered, is never called. *)
Lemma C9_counterexample :
  let this := Stub.client (Returned (Stub.body [Stub.rawPoint "t1" 1]))
                (Raised Stub.cacheDown) (Returned true) in
  fetchPoints Stub.imports this (of_Z 10) (of_Z 20) tt
  = (Throw (Foreign Stub.cacheDown), tt,
     [EvCacheGet (getCacheKey (of_Z 10) (of_Z 20))])
  /\ upstream_calls
       (snd (fetchPoints Stub.imports this (of_Z 10) (of_Z 20) tt)) = [].
Proof. repeat split. Qed.

(** C9, amended.  A cache read that yields no value is a miss and the
    call goes on to the fetch path; a cache read that throws is not
    caught: the call ends there with the error of the cache, unchanged,
    and the transport is not called. *)
Theorem C9_read_failure {W : Type} (imports : Imports W)
    (this : StormGlass.t W) (lat lng : number) (w w1 : W)
    (outcome : Outcome (option (list ForecastPoint.t))) :
  CacheUtil.get (StormGlass.cacheUtil this) (getCacheKey lat lng) w
    = (outcome, w1) ->
  match outcome with
  | Returned None =>
      exists r w2 rest,
        fetchPoints imports this lat lng w
        = (r, w2,
           EvCacheGet (getCacheKey lat lng)
           :: request_event imports lat lng w1 :: rest)
  | Returned (Some cached) =>
      exists trace,
        fetchPoints imports this lat lng w = (Ok cached, w1, trace)
        /\ upstream_calls trace = []
  | Raised e =>
      fetchPoints imports this lat lng w
      = (Throw (Foreign e), w1, [EvCacheGet (getCacheKey lat lng)])
  end.
Proof.
  intros Hget. destruct outcome as [[cached|]|e].
  - eexists. split; [apply fetchPoints_hit; eassumption | reflexivity].
  - rewrite (fetchPoints_miss _ _ _ _ _ _ Hget), api_fetch.
    destruct (request_outcome imports this lat lng w1) as [[response|e] w2].
    + destruct (normalizeResponse (Response.data response)) as [pts|err].
      * destruct (CacheUtil.set _ _ pts _ w2) as [[b|e] w3]; simpl; eauto.
      * simpl; eauto.
    + simpl; eauto.
  - apply fetchPoints_lookup_throws; assumption.
Qed.

Lemma C9_witness :
  fetchPoints Stub.imports
    (Stub.client (Returned (Stub.body [Stub.rawPoint "t1" 1]))
       (Raised Stub.cacheDown) (Returned true))
    (of_Z 10) (of_Z 20) tt
  = (Throw (Foreign Stub.cacheDown), tt,
     [EvCacheGet (getCacheKey (of_Z 10) (of_Z 20))]).
Proof.
  apply (C9_read_failure Stub.imports
           (Stub.client (Returned (Stub.body [Stub.rawPoint "t1" 1]))
              (Raised Stub.cacheDown) (Returned true))
           (of_Z 10) (of_Z 20) tt tt (Raised Stub.cacheDown)).
  reflexivity.
Defined.

(* ===================================================================== *)
(** * Error classification of the fetch path *)
(* ===================================================================== *)

Lemma rethrown_class (err : JsError) :
  is_StormGlassResponseError (rethrown err) = isRequestError err
  /\ is_ClientRequestError (rethrown err) = negb (isRequestError err).
Proof.
  unfold rethrown, isRequestError. destruct (err_response err); split; reflexivity.
Qed.

Lemma normalizeResponse_throws (body : StormGlassForecastResponse) (err : JsError) :
  normalizeResponse body = Throw err ->
  hours body = None /\ err = undefined_read "filter".
Proof.
  rewrite normalizeResponse_cases. destruct (hours body); [discriminate|].
  intros [= <-]. split; reflexivity.
Qed.

(** C5. When the transport rejects with an error that carries a response,
    the fetch path throws a [StormGlassResponseError] whose message holds
    the serialized body and the status; when it rejects with any other
    error, the fetch path throws a [ClientRequestError] whose message holds
    the message of that error.  The two are of different classes. *)
Theorem C5_error_classification {W : Type} (imports : Imports W)
    (this : StormGlass.t W) (lat lng : number) (w w1 : W) (e : ForeignError) :
  request_outcome imports this lat lng w = (Raised e, w1) ->
  exists err,
    getForecastPointsFromApi imports this lat lng w
    = (Throw err, w1, [request_event imports lat lng w])
    /\ match foreign_response e with
       | Some response =>
           err = StormGlassResponseError
                   ("Unexpected error returned by the StormGlass Service: Error: "
                    +:+ JSON.stringify (data response)
                    +:+ " Code: " +:+ NumberToString (status response))
           /\ is_StormGlassResponseError err = true
           /\ is_ClientRequestError err = false
       | None =>
           err = ClientRequestError
                   ("Unexpected error when trying to communicate to StormGlass: "
                    +:+ foreign_message e)
           /\ is_ClientRequestError err = true
           /\ is_StormGlassResponseError err = false
       end.
Proof.
  intros Hreq. exists (rethrown (Foreign e)).
  rewrite api_fetch, Hreq. split; [reflexivity|].
  unfold rethrown; simpl. destruct (foreign_response e); repeat split.
Qed.

Lemma C5_witness :
  exists err,
    getForecastPointsFromApi Stub.imports
      (Stub.client (Raised Stub.rateLimited) (Returned None) (Returned true))
      (of_Z 10) (of_Z 20) tt
    = (Throw err, tt, [request_event Stub.imports (of_Z 10) (of_Z 20) tt])
    /\ (err = StormGlassResponseError
                ("Unexpected error returned by the StormGlass Service: Error: "
                 +:+ JSON.stringify
                       (JSON.JObject
                          [("errors", JSON.JArray [JSON.JString "Rate Limit reached"])])
                 +:+ " Code: " +:+ NumberToString (of_Z 429))
        /\ is_StormGlassResponseError err = true
        /\ is_ClientRequestError err = false).
Proof.
  apply (C5_error_classification Stub.imports
           (Stub.client (Raised Stub.rateLimited) (Returned None) (Returned true))
           (of_Z 10) (of_Z 20) tt tt Stub.rateLimited).
  reflexivity.
Defined.

Lemma api_throws_two_classes {W : Type} (imports : Imports W)
    (this : StormGlass.t W) (lat lng : number) (w w1 : W) (err : JsError)
    (trace : list Event) :
  getForecastPointsFromApi imports this lat lng w = (Throw err, w1, trace) ->
  exists caught, err = rethrown caught.
Proof.
  rewrite api_fetch.
  destruct (request_outcome imports this lat lng w) as [[response|e] w2].
  - destruct (normalizeResponse (Response.data response)) as [pts|caught];
      [discriminate|]. intros [= <- _ _]. eauto.
  - intros [= <- _ _]. eauto.
Qed.

Lemma rethrown_not_unexpected (caught : JsError) :
  is_StormGlassUnexpectedResponseError (rethrown caught) = false.
Proof. unfold rethrown. destruct (err_response caught); reflexivity. Qed.

Lemma fetchPoints_throws {W : Type} (imports : Imports W)
    (this : StormGlass.t W) (lat lng : number) (w w1 : W) (err : JsError)
    (trace : list Event) :
  fetchPoints imports this lat lng w = (Throw err, w1, trace) ->
  (exists e, err = Foreign e) \/ (exists caught, err = rethrown caught).
Proof.
  unfold fetchPoints, bind. rewrite cache_lookup.
  destruct (CacheUtil.get _ _ w) as [[[cached|]|e] w2].
  - discriminate.
  - destruct (getForecastPointsFromApi imports this lat lng w2)
      as [[[pts|err'] w3] t] eqn:Hapi.
    + rewrite cache_store.
      destruct (CacheUtil.set _ _ pts _ w3) as [[b|e] w4]; simpl;
        [discriminate|]. intros [= <- _ _]. left; eauto.
    + intros [= <- _ _]. right. eapply api_throws_two_classes; eassumption.
  - intros [= <- _ _]. left; eauto.
Qed.

(** C10. Whatever the fetch path throws is a [ClientRequestError] or a
    [StormGlassResponseError]; a success payload without an [hours] array
    makes normalization fail inside the [try] block and comes out as a
    [ClientRequestError]; no operation of the client throws a
    [StormGlassUnexpectedResponseError]. *)
Theorem C10_only_two_error_classes {W : Type} (imports : Imports W)
    (this : StormGlass.t W) (lat lng : number) (w : W) :
  (forall w1 err trace,
     getForecastPointsFromApi imports this lat lng w = (Throw err, w1, trace) ->
     xorb (is_ClientRequestError err) (is_StormGlassResponseError err) = true)
  /\ (forall response w1,
        request_outcome imports this lat lng w = (Returned response, w1) ->
        hours (Response.data response) = None ->
        getForecastPointsFromApi imports this lat lng w
        = (Throw (ClientRequestError
                    ("Unexpected error when trying to communicate to StormGlass: "
                     +:+ "Cannot read properties of undefined (reading 'filter')")),
           w1, [request_event imports lat lng w]))
  /\ (forall w1 err trace,
        fetchPoints imports this lat lng w = (Throw err, w1, trace) ->
        is_StormGlassUnexpectedResponseError err = false)
  /\ (forall key w1 err trace,
        getForecastPointsFromCache this key w = (Throw err, w1, trace) ->
        is_StormGlassUnexpectedResponseError err = false)
  /\ (forall key pts w1 err trace,
        setForecastPointsInCache imports this key pts w = (Throw err, w1, trace) ->
        is_StormGlassUnexpectedResponseError err = false)
  /\ (forall body err,
        normalizeResponse body = Throw err ->
        is_StormGlassUnexpectedResponseError err = false).
Proof.
  repeat apply conj.
  - intros w1 err trace H.
    destruct (api_throws_two_classes _ _ _ _ _ _ _ _ H) as [caught ->].
    destruct (rethrown_class caught) as [-> ->].
    destruct (isRequestError caught); reflexivity.
  - intros response w1 Hreq Hhours.
    rewrite api_fetch, Hreq, normalizeResponse_cases, Hhours. reflexivity.
  - intros w1 err trace H.
    destruct (fetchPoints_throws _ _ _ _ _ _ _ _ H) as [[e ->]|[caught ->]];
      [reflexivity | apply rethrown_not_unexpected].
  - intros key w1 err trace. rewrite cache_lookup.
    destruct (CacheUtil.get _ key w) as [[[cached|]|e] w2];
      try discriminate. intros [= <- _ _]. reflexivity.
  - intros key pts w1 err trace. rewrite cache_store.
    destruct (CacheUtil.set _ key pts _ w) as [[b|e] w2];
      try discriminate. intros [= <- _ _]. reflexivity.
  - intros body err H. apply normalizeResponse_throws in H as [_ ->]. reflexivity.
Qed.

Lemma C10_witness :
  getForecastPointsFromApi Stub.imports
    (Stub.client (Returned (Response.mk {| hours := None |}))
       (Returned None) (Returned true))
    (of_Z 10) (of_Z 20) tt
  = (Throw (ClientRequestError
              ("Unexpected error when trying to communicate to StormGlass: "
               +:+ "Cannot read properties of undefined (reading 'filter')")),
     tt, [request_event Stub.imports (of_Z 10) (of_Z 20) tt])
  /\ xorb (is_ClientRequestError
             (ClientRequestError
                ("Unexpected error when trying to communicate to StormGlass: "
                 +:+ "Cannot read properties of undefined (reading 'filter')")))
          (is_StormGlassResponseError
             (ClientRequestError
                ("Unexpected error when trying to communicate to StormGlass: "
                 +:+ "Cannot read properties of undefined (reading 'filter')")))
     = true.
Proof.
  pose proof (C10_only_two_error_classes Stub.imports
           (Stub.client (Returned (Response.mk {| hours := None |}))
              (Returned None) (Returned true))
           (of_Z 10) (of_Z 20) tt) as (Hcls & Hmal & _).
  assert (Hrun := Hmal (Response.mk {| hours := None |}) tt eq_refl eq_refl).
  split; [exact Hrun | exact (Hcls _ _ _ Hrun)].
Defined.

(* ===================================================================== *)
(** * The cache key *)
(* ===================================================================== *)

Lemma getCacheKey_chars (lat lng : number) :
  list_ascii_of_string (getCacheKey lat lng)
  = list_ascii_of_string "forecast_points_"
    ++ to_chars lat ++ "_"%char :: to_chars lng.
Proof.
  unfold getCacheKey, NumberToString.
  rewrite !list_ascii_of_string_app, !list_ascii_of_string_of_list_ascii.
  reflexivity.
Qed.

Lemma getCacheKey_inj (lat lng lat' lng' : number) :
  wf lat = true -> wf lng = true -> wf lat' = true -> wf lng' = true ->
  getCacheKey lat lng = getCacheKey lat' lng' ->
  read_back lat = read_back lat' /\ read_back lng = read_back lng'.
Proof.
  intros H1 H2 H3 H4 Hkey.
  apply (f_equal list_ascii_of_string) in Hkey.
  rewrite !getCacheKey_chars in Hkey. apply app_inv_head in Hkey.
  apply split_at_underscore in Hkey as [Ha Hb];
    auto using to_chars_no_underscore, to_chars_inj.
Qed.

Lemma getCacheKey_same (lat lng lat' lng' : number) :
  read_back lat = read_back lat' -> read_back lng = read_back lng' ->
  getCacheKey lat lng = getCacheKey lat' lng'.
Proof.
  intros Ha Hb. unfold getCacheKey, NumberToString.
  rewrite (strict_eq_same_text _ _ Ha), (strict_eq_same_text _ _ Hb).
  reflexivity.
Qed.

(** C7 fails as stated: the coordinates are not written with a fixed
    precision.  The key of (10, 20) shows no decimals, the key of
    (10.5, 20.25) shows one and two; no number of decimals fits every
    finite number. *)
Lemma C7_counterexample :
  getCacheKey (of_Z 10) (of_Z 20) = "forecast_points_10_20"
  /\ getCacheKey (of_decimal 105 (-1)) (of_decimal 2025 (-2))
     = "forecast_points_10.5_20.25"
  /\ ~ (exists d : nat,
          forall x : number,
            wf x = true -> is_finite x = true ->
            fraction_digits (NumberToString x) = d).
Proof.
  split; [vm_compute; reflexivity|]. split; [vm_compute; reflexivity|].
  intros [d Hd].
  pose proof (Hd (of_Z 10) eq_refl eq_refl) as H0.
  pose proof (Hd (of_decimal 105 (-1)) eq_refl eq_refl) as H1.
  vm_compute in H0, H1. congruence.
Qed.

(** C7, amended.  The key is a function of the pair of numbers: for
    finite coordinates two keys are the same text exactly when the two
    latitudes and the two longitudes are equal as numbers ([===], so [0]
    and [-0] share a key).  Each coordinate is written by the default
    conversion of numbers to text, whose length varies with the number
    and which reads back as the number it was made from, so that no
    rounding is involved. *)
Theorem C7_cache_key_injective (lat lng lat' lng' : number) :
  wf lat = true -> wf lng = true -> wf lat' = true -> wf lng' = true ->
  is_finite lat = true -> is_finite lng = true ->
  is_finite lat' = true -> is_finite lng' = true ->
  (getCacheKey lat lng = getCacheKey lat' lng'
   <-> strict_eq lat lat' = true /\ strict_eq lng lng' = true)
  /\ parseNumber (NumberToString lat) = Some (read_back lat)
  /\ parseNumber (NumberToString lng) = Some (read_back lng).
Proof.
  intros W1 W2 W3 W4 F1 F2 F3 F4. split; [|split].
  - rewrite !strict_eq_read_back by assumption. split.
    + apply getCacheKey_inj; assumption.
    + intros [Ha Hb]. apply getCacheKey_same; assumption.
  - apply NumberToString_roundtrip; assumption.
  - apply NumberToString_roundtrip; assumption.
Qed.

Lemma C7_witness :
  (getCacheKey (of_Z 10) (of_Z 20)
   = getCacheKey (of_decimal 105 (-1)) (of_Z 20)
   <-> strict_eq (of_Z 10) (of_decimal 105 (-1)) = true
       /\ strict_eq (of_Z 20) (of_Z 20) = true)
  /\ parseNumber (NumberToString (of_Z 10)) = Some (read_back (of_Z 10))
  /\ parseNumber (NumberToString (of_Z 20)) = Some (read_back (of_Z 20)).
Proof.
  apply (C7_cache_key_injective (of_Z 10) (of_Z 20) (of_decimal 105 (-1)) (of_Z 20));
    reflexivity.
Defined.

(* ===================================================================== *)
(** * Further facts about the normalizer *)
(* ===================================================================== *)

Lemma readings_complete (r : StormGlassPoint.t) :
  complete (readings r) = isValidPoint r.
Proof. reflexivity. Qed.

(** Every point [normalizeResponse] returns has a non-empty time and
    seven measurements that are defined and neither zero nor NaN. *)
Theorem normalizeResponse_points_complete (body : StormGlassForecastResponse)
    (pts : list ForecastPoint.t) :
  normalizeResponse body = Ok pts ->
  Forall (fun p => complete p = true) pts.
Proof.
  rewrite normalizeResponse_cases. destruct (hours body) as [hs|]; [|discriminate].
  intros [= <-]. apply Forall_map.
  eapply Forall_impl; [apply filter_all_valid|].
  intros r Hr. simpl. rewrite readings_complete. exact Hr.
Qed.

Lemma normalizeResponse_points_complete_witness :
  Forall (fun p => complete p = true) (map readings [Stub.rawPoint "t1" 1]).
Proof.
  apply (normalizeResponse_points_complete
           {| hours := Some [Stub.rawPoint "t1" 1; Stub.rawPoint "t2" 0] |}).
  vm_compute. reflexivity.
Defined.

Lemma filter_nil_iff {A} (f : A -> bool) (l : list A) :
  List.filter f l = [] <-> Forall (fun x => f x = false) l.
Proof.
  induction l as [|x l IH]; simpl.
  - split; [constructor | reflexivity].
  - destruct (f x) eqn:E.
    + split; [discriminate|]. intros H. inversion H; congruence.
    + rewrite IH. split; [constructor; assumption|].
      intros H. inversion H; assumption.
Qed.

(** The result is the empty sequence exactly when no hourly record is
    valid; in particular an empty [hours] array gives an empty result and
    not an error. *)
Theorem normalizeResponse_empty_iff (hs : list StormGlassPoint.t) :
  normalizeResponse {| hours := Some hs |} = Ok []
  <-> Forall (fun r => isValidPoint r = false) hs.
Proof.
  rewrite normalizeResponse_hours, <- filter_nil_iff. split.
  - intros [= H]. apply map_eq_nil in H. exact H.
  - intros ->. reflexivity.
Qed.

Lemma filter_length_le {A} (f : A -> bool) (l : list A) :
  (length (List.filter f l) <= length l)%nat.
Proof. pose proof (filter_partition_length f l). lia. Qed.

Lemma filter_length_eq_iff {A} (f : A -> bool) (l : list A) :
  length (List.filter f l) = length l <-> Forall (fun x => f x = true) l.
Proof.
  induction l as [|x l IH]; simpl.
  - split; [constructor | reflexivity].
  - destruct (f x) eqn:E; simpl.
    + split.
      * intros [= H]. constructor; [exact E | apply IH, H].
      * intros H. inversion H; subst. f_equal. apply IH. assumption.
    + pose proof (filter_length_le f l) as Hle. split; [lia|].
      intros Hall. inversion Hall; congruence.
Qed.

(** The result never has more points than [hours] has records, and it has
    as many exactly when every record is valid. *)
Theorem normalizeResponse_length (hs : list StormGlassPoint.t) :
  exists pts,
    normalizeResponse {| hours := Some hs |} = Ok pts
    /\ (length pts <= length hs)%nat
    /\ (length pts = length hs <-> Forall (fun r => isValidPoint r = true) hs).
Proof.
  eexists. split; [apply normalizeResponse_hours|].
  rewrite length_map. split; [apply filter_length_le | apply filter_length_eq_iff].
Qed.

(** Normalizing two batches of records one after the other gives the
    points of the first followed by the points of the second. *)
Theorem normalizeResponse_app (hs1 hs2 : list StormGlassPoint.t) :
  exists pts1 pts2,
    normalizeResponse {| hours := Some hs1 |} = Ok pts1
    /\ normalizeResponse {| hours := Some hs2 |} = Ok pts2
    /\ normalizeResponse {| hours := Some (hs1 ++ hs2) |} = Ok (pts1 ++ pts2).
Proof.
  eexists _, _. repeat split; try apply normalizeResponse_hours.
  rewrite normalizeResponse_hours, List.filter_app, map_app. reflexivity.
Qed.

(** A record is dropped when one of its seven mappings is missing, or
    has no entry under [noaa] (whatever it holds under other sources), or
    holds a falsy number there. *)
Theorem isValidPoint_rejects_missing (point : StormGlassPoint.t)
    (raw : option StormGlassPointSource) :
  In raw (measurements point) ->
  truthy_number (optional_get raw stormGlassAPISource) = false ->
  isValidPoint point = false.
Proof.
  intros Hin Hraw. apply not_true_is_false. intros Hvalid.
  split_valid Hvalid.
  unfold measurements in Hin; simpl in Hin.
  repeat (destruct Hin as [<-|Hin]; [congruence|]).
  exact Hin.
Qed.

Lemma isValidPoint_rejects_missing_witness :
  isValidPoint
    (StormGlassPoint.mk (Some "t1") (Some {[ "sg" := of_Z 3 ]})
       (Stub.source 1) (Stub.source 1) (Stub.source 1) (Stub.source 1)
       (Stub.source 1) (Stub.source 1)) = false.
Proof.
  apply (isValidPoint_rejects_missing _ (Some {[ "sg" := of_Z 3 ]})).
  - left. reflexivity.
  - vm_compute. reflexivity.
Defined.

(* ===================================================================== *)
(** * Further facts about the client *)
(* ===================================================================== *)

(** Whatever the transport does, the fetch path makes exactly one
    request, to the URL built from the configured base URL, the
    coordinates, the fixed parameter list, the source [noaa] and the
    timestamp of the clock, with the configured token as [Authorization]
    header; it neither logs nor touches the cache, and it leaves the
    world as the transport left it. *)
Theorem getForecastPointsFromApi_one_request {W : Type} (imports : Imports W)
    (this : StormGlass.t W) (lat lng : number) (w : W) :
  exists r,
    getForecastPointsFromApi imports this lat lng w
    = (r, snd (request_outcome imports this lat lng w),
       [EvRequestGet
          (apiUrl (stormGlassResourceConfig imports)
           +:+ "/weather/point?lat=" +:+ NumberToString lat
           +:+ "&lng=" +:+ NumberToString lng
           +:+ "&params=swellDirection,swellHeight,swellPeriod,waveDirection,waveHeight,windDirection,windSpeed"
           +:+ "&source=noaa"
           +:+ "&end=" +:+ NumberToString (getUnixTimeForAFutureDay imports 1 w))
          [("Authorization", apiToken (stormGlassResourceConfig imports))]]).
Proof.
  rewrite api_fetch.
  destruct (request_outcome imports this lat lng w) as [[response|e] w1]; simpl.
  - destruct (normalizeResponse (Response.data response)); eexists; reflexivity.
  - eexists; reflexivity.
Qed.

(** When the fetch path fails after a miss, [fetchPoints] throws the very
    error of the fetch path and writes nothing to the cache. *)
Theorem fetchPoints_failed_fetch_not_cached {W : Type} (imports : Imports W)
    (this : StormGlass.t W) (lat lng : number) (w w1 w2 : W)
    (err : JsError) (t : list Event) :
  CacheUtil.get (StormGlass.cacheUtil this) (getCacheKey lat lng) w
    = (Returned None, w1) ->
  getForecastPointsFromApi imports this lat lng w1 = (Throw err, w2, t) ->
  fetchPoints imports this lat lng w
  = (Throw err, w2, EvCacheGet (getCacheKey lat lng) :: t)
  /\ cache_writes (EvCacheGet (getCacheKey lat lng) :: t) = [].
Proof.
  intros Hget Hapi. rewrite (fetchPoints_miss _ _ _ _ _ _ Hget), Hapi.
  split; [reflexivity|].
  rewrite api_fetch in Hapi.
  destruct (request_outcome imports this lat lng w1) as [[response|e] w3].
  - destruct (normalizeResponse (Response.data response)); [discriminate|].
    injection Hapi as _ _ <-. reflexivity.
  - injection Hapi as _ _ <-. reflexivity.
Qed.

Lemma fetchPoints_failed_fetch_not_cached_witness :
  let this := Stub.client (Raised Stub.networkError) (Returned None)
                (Returned true) in
  fetchPoints Stub.imports this (of_Z 10) (of_Z 20) tt
  = (Throw (ClientRequestError
              "Unexpected error when trying to communicate to StormGlass: Network Error"),
     tt,
     [EvCacheGet (getCacheKey (of_Z 10) (of_Z 20));
      request_event Stub.imports (of_Z 10) (of_Z 20) tt])
  /\ cache_writes
       [EvCacheGet (getCacheKey (of_Z 10) (of_Z 20));
        request_event Stub.imports (of_Z 10) (of_Z 20) tt] = [].
Proof.
  intros this.
  apply (fetchPoints_failed_fetch_not_cached Stub.imports this
           (of_Z 10) (of_Z 20) tt tt tt); reflexivity.
Defined.

(** A cache write that throws is not caught: although the points were
    fetched, [fetchPoints] ends with the error of the cache. *)
Theorem fetchPoints_write_throws {W : Type} (imports : Imports W)
    (this : StormGlass.t W) (lat lng : number) (w w1 w2 w3 : W)
    (response : Response.t) (pts : list ForecastPoint.t) (e : ForeignError) :
  CacheUtil.get (StormGlass.cacheUtil this) (getCacheKey lat lng) w
    = (Returned None, w1) ->
  request_outcome imports this lat lng w1 = (Returned response, w2) ->
  normalizeResponse (Response.data response) = Ok pts ->
  CacheUtil.set (StormGlass.cacheUtil this) (getCacheKey lat lng) pts
    (cacheTtl (stormGlassResourceConfig imports)) w2 = (Raised e, w3) ->
  exists trace,
    fetchPoints imports this lat lng w = (Throw (Foreign e), w3, trace).
Proof.
  intros Hget Hreq Hnorm Hset.
  rewrite (fetchPoints_miss _ _ _ _ _ _ Hget), api_fetch, Hreq, Hnorm, Hset.
  eexists. reflexivity.
Qed.

Lemma fetchPoints_write_throws_witness :
  exists trace,
    fetchPoints Stub.imports
      (Stub.client (Returned (Stub.body [Stub.rawPoint "t1" 1]))
         (Returned None) (Raised Stub.cacheDown))
      (of_Z 10) (of_Z 20) tt
    = (Throw (Foreign Stub.cacheDown), tt, trace).
Proof.
  apply (fetchPoints_write_throws Stub.imports
           (Stub.client (Returned (Stub.body [Stub.rawPoint "t1" 1]))
              (Returned None) (Raised Stub.cacheDown))
           (of_Z 10) (of_Z 20) tt tt tt tt
           (Stub.body [Stub.rawPoint "t1" 1])
           (map readings [Stub.rawPoint "t1" 1]) Stub.cacheDown).
  - reflexivity.
  - reflexivity.
  - vm_compute. reflexivity.
  - reflexivity.
Defined.

(** Miss, then hit: when the cache hands back what was stored under the
    key, a second call for the same coordinates returns the same points
    as the first and does not call the transport. *)
Theorem fetchPoints_miss_then_hit {W : Type} (imports : Imports W)
    (this : StormGlass.t W) (lat lng : number) (w w1 w2 w3 w4 : W)
    (response : Response.t) (pts : list ForecastPoint.t) (b : bool) :
  CacheUtil.get (StormGlass.cacheUtil this) (getCacheKey lat lng) w
    = (Returned None, w1) ->
  request_outcome imports this lat lng w1 = (Returned response, w2) ->
  normalizeResponse (Response.data response) = Ok pts ->
  CacheUtil.set (StormGlass.cacheUtil this) (getCacheKey lat lng) pts
    (cacheTtl (stormGlassResourceConfig imports)) w2 = (Returned b, w3) ->
  CacheUtil.get (StormGlass.cacheUtil this) (getCacheKey lat lng) w3
    = (Returned (Some pts), w4) ->
  exists t1 t2,
    fetchPoints imports this lat lng w = (Ok pts, w3, t1)
    /\ length (upstream_calls t1) = 1%nat
    /\ fetchPoints imports this lat lng w3 = (Ok pts, w4, t2)
    /\ upstream_calls t2 = []
    /\ cache_writes t2 = [].
Proof.
  intros Hget Hreq Hnorm Hset Hget2. eexists _, _.
  split; [eapply fetchPoints_miss_fresh; eassumption|].
  split; [reflexivity|].
  split; [apply fetchPoints_hit; eassumption|].
  split; reflexivity.
Qed.

Lemma fetchPoints_miss_then_hit_witness :
  let this := StormGlass.mk
                (Stub.request (Returned (Stub.body [Stub.rawPoint "t1" 1])))
                memoryCache in
  let pts := map readings [Stub.rawPoint "t1" 1] in
  let stored := <[getCacheKey (of_Z 10) (of_Z 20) := pts]> ∅ in
  exists t1 t2,
    fetchPoints (importsFor _) this (of_Z 10) (of_Z 20) ∅ = (Ok pts, stored, t1)
    /\ length (upstream_calls t1) = 1%nat
    /\ fetchPoints (importsFor _) this (of_Z 10) (of_Z 20) stored
       = (Ok pts, stored, t2)
    /\ upstream_calls t2 = []
    /\ cache_writes t2 = [].
Proof.
  intros this pts stored.
  apply (fetchPoints_miss_then_hit (importsFor _) this (of_Z 10) (of_Z 20)
           ∅ ∅ ∅ stored stored (Stub.body [Stub.rawPoint "t1" 1]) pts true).
  - reflexivity.
  - reflexivity.
  - vm_compute. reflexivity.
  - reflexivity.
  - simpl. unfold stored. rewrite lookup_insert_eq. reflexivity.
Defined.

(** The calls of every run of [fetchPoints], in order: the cache read,
    and then nothing more (the read threw), or the log line of a hit, or
    the request alone (the fetch failed), or the request, the log line of
    the update and one cache write under the key of the read.  So the
    cache is read first and once, there is at most one request and at
    most one write, and the write comes after the request. *)
Theorem fetchPoints_trace_discipline {W : Type} (imports : Imports W)
    (this : StormGlass.t W) (lat lng : number) (w : W) :
  let key := getCacheKey lat lng in
  let w1 := snd (CacheUtil.get (StormGlass.cacheUtil this) key w) in
  let trace := snd (fetchPoints imports this lat lng w) in
  trace = [EvCacheGet key]
  \/ trace = [EvCacheGet key; EvLogInfo (hit_message key)]
  \/ trace = [EvCacheGet key; request_event imports lat lng w1]
  \/ exists pts,
       trace = [EvCacheGet key;
                request_event imports lat lng w1;
                EvLogInfo (update_message key);
                EvCacheSet key pts (cacheTtl (stormGlassResourceConfig imports))].
Proof.
  intros key w1 trace. subst key w1 trace.
  destruct (CacheUtil.get (StormGlass.cacheUtil this) (getCacheKey lat lng) w)
    as [[[cached|]|e] w1] eqn:Hget; simpl.
  - rewrite (fetchPoints_hit _ _ _ _ _ _ _ Hget). right. left. reflexivity.
  - rewrite (fetchPoints_miss _ _ _ _ _ _ Hget), api_fetch.
    destruct (request_outcome imports this lat lng w1) as [[response|e] w2].
    + destruct (normalizeResponse (Response.data response)) as [pts|err].
      * destruct (CacheUtil.set _ _ pts _ w2) as [[b|e] w3]; simpl;
          right; right; right; exists pts; reflexivity.
      * simpl. right. right. left. reflexivity.
    + simpl. right. right. left. reflexivity.
  - rewrite (fetchPoints_lookup_throws _ _ _ _ _ _ _ Hget). left. reflexivity.
Qed.

(** What [fetchPoints] can throw: the error of the cache itself (from the
    read or from the write), a [ClientRequestError] or a
    [StormGlassResponseError]; in particular never a [TypeError], whatever
    the payload looks like. *)
Theorem fetchPoints_error_taxonomy {W : Type} (imports : Imports W)
    (this : StormGlass.t W) (lat lng : number) (w w1 : W) (err : JsError)
    (trace : list Event) :
  fetchPoints imports this lat lng w = (Throw err, w1, trace) ->
  (exists e,
     err = Foreign e
     /\ ((exists k w0,
            fst (CacheUtil.get (StormGlass.cacheUtil this) k w0) = Raised e)
         \/ (exists k v ttl w0,
               fst (CacheUtil.set (StormGlass.cacheUtil this) k v ttl w0)
               = Raised e)))
  \/ is_ClientRequestError err = true
  \/ is_StormGlassResponseError err = true.
Proof.
  unfold fetchPoints, bind. rewrite cache_lookup.
  destruct (CacheUtil.get _ _ w) as [[[cached|]|e] w2] eqn:Hget.
  - discriminate.
  - destruct (getForecastPointsFromApi imports this lat lng w2)
      as [[[pts|err'] w3] t] eqn:Hapi.
    + rewrite cache_store.
      destruct (CacheUtil.set _ _ pts _ w3) as [[b|e] w4] eqn:Hset; simpl;
        [discriminate|]. intros [= <- _ _]. left.
      exists e. split; [reflexivity|]. right.
      eexists _, _, _, _. rewrite Hset. reflexivity.
    + intros [= <- _ _].
      destruct (api_throws_two_classes _ _ _ _ _ _ _ _ Hapi) as [caught ->].
      destruct (rethrown_class caught) as [-> ->].
      destruct (isRequestError caught); auto.
  - intros [= <- _ _]. left. exists e. split; [reflexivity|]. left.
    eexists _, _. rewrite Hget. reflexivity.
Qed.

Lemma fetchPoints_error_taxonomy_witness :
  is_ClientRequestError
    (ClientRequestError
       "Unexpected error when trying to communicate to StormGlass: Network Error")
  = true.
Proof.
  destruct (fetchPoints_error_taxonomy Stub.imports
              (Stub.client (Raised Stub.networkError) (Returned None) (Returned true))
              (of_Z 10) (of_Z 20) tt tt
              (ClientRequestError
                 "Unexpected error when trying to communicate to StormGlass: Network Error")
              [EvCacheGet (getCacheKey (of_Z 10) (of_Z 20));
               request_event Stub.imports (of_Z 10) (of_Z 20) tt]
              eq_refl) as [(e & H & _)|[H|H]].
  - discriminate H.
  - exact H.
  - discriminate H.
Defined.
